(** * A shallow embedding of [mips_core.py]

    The word parser [parse_word], the instruction decoder [decode] and the
    execution engine [SimpleMIPS] (constructor, [fetch_instr_at_pc], [step],
    [run_n]) are translated function by function.  Python integers are [Z]
    (unbounded, with the masks of the source written out), the register file
    is a [list Z], the memory dictionary a [gmap Z Z], and the dictionaries the
    code returns are records whose optional fields stand for keys that may be
    absent.  Every Python operation that can raise (indexing a list, looking
    up a key, converting text to an integer) is modelled in an outcome monad,
    so that "never raises" is a statement about the model and not a
    consequence of its types. *)

From Stdlib Require Import ZArith String Ascii List Lia Bool.
From stdpp Require Import base gmap list strings.

Open Scope string_scope.
Open Scope Z_scope.

(** ** Python outcomes *)

Module Py.

Inductive Exc : Type := ValueError | IndexError | KeyError.

(** The result of evaluating a Python expression or call: a value, or an
    exception that travels up to the nearest handler. *)
Inductive Outcome (A : Type) : Type :=
| Ret (a : A)
| Raise (e : Exc).
Arguments Ret {A} a.
Arguments Raise {A} e.

Definition bind {A B : Type} (m : Outcome A) (k : A -> Outcome B) : Outcome B :=
  match m with
  | Ret a => k a
  | Raise e => Raise e
  end.

(** [try: m  except Exception: h] -- all three modelled exceptions derive from
    [Exception]. *)
Definition try_except {A : Type} (m : Outcome A) (h : Outcome A) : Outcome A :=
  match m with
  | Ret a => Ret a
  | Raise _ => h
  end.


(** *** Lists: [l[i]] and [l[i] = v], with Python's negative indices *)

Definition norm_index {A : Type} (l : list A) (i : Z) : option nat :=
  let n := Z.of_nat (length l) in
  if (0 <=? i) && (i <? n) then Some (Z.to_nat i)
  else if (- n <=? i) && (i <? 0) then Some (Z.to_nat (n + i))
  else None.

Definition list_getitem {A : Type} (l : list A) (i : Z) : Outcome A :=
  match norm_index l i with
  | Some k => match l !! k with Some x => Ret x | None => Raise IndexError end
  | None => Raise IndexError
  end.

Definition list_setitem {A : Type} (l : list A) (i : Z) (v : A) : Outcome (list A) :=
  match norm_index l i with
  | Some k => Ret (<[k := v]> l)
  | None => Raise IndexError
  end.

(** *** Dictionaries: [d[k]] on a key that may be absent, [d.get(k, dflt)] *)

Definition dict_item {A : Type} (entry : option A) : Outcome A :=
  match entry with
  | Some x => Ret x
  | None => Raise KeyError
  end.

(** A literal dictionary with integer keys, in source order. *)
Definition table := list (Z * string).

Fixpoint table_lookup (t : table) (k : Z) : option string :=
  match t with
  | [] => None
  | (k', v) :: t' => if k =? k' then Some v else table_lookup t' k
  end.

Definition table_get (t : table) (k : Z) (dflt : string) : string :=
  match table_lookup t k with
  | Some v => v
  | None => dflt
  end.

Definition table_contains (t : table) (k : Z) : bool :=
  match table_lookup t k with
  | Some _ => true
  | None => false
  end.

(** *** Text

    A [str] is modelled by a [string] whose characters are the code points
    U+0000..U+00FF.  On that range [str.isspace] holds of exactly the twelve
    characters below and the only decimal digits are ['0'..'9']. *)

Definition code (c : ascii) : Z := Z.of_N (N_of_ascii c).

Definition between (lo hi : Z) (x : Z) : bool := (lo <=? x) && (x <=? hi).

Definition isspace (c : ascii) : bool :=
  let n := code c in
  between 9 13 n || between 28 32 n || (n =? 133) || (n =? 160).

Fixpoint lstrip (s : string) : string :=
  match s with
  | EmptyString => EmptyString
  | String c s' => if isspace c then lstrip s' else s
  end.

Fixpoint rstrip (s : string) : string :=
  match s with
  | EmptyString => EmptyString
  | String c s' =>
      match rstrip s' with
      | EmptyString => if isspace c then EmptyString else String c EmptyString
      | r => String c r
      end
  end.

Definition strip (s : string) : string := rstrip (lstrip s).

Definition startswith (s p : string) : bool := String.prefix p s.

Definition len (s : string) : Z := Z.of_nat (String.length s).

(** The truth value of a [str]: false exactly for the empty one. *)
Definition truthy (s : string) : bool :=
  match s with
  | EmptyString => false
  | String _ _ => true
  end.

(** [all(c in '01' for c in s)] *)
Fixpoint all_in_01 (s : string) : bool :=
  match s with
  | EmptyString => true
  | String c s' => (Ascii.eqb c "0" || Ascii.eqb c "1") && all_in_01 s'
  end.

(** *** [int(s, base)] for [base] 2 or 16

    Follows the conversion of the reference interpreter: non-ASCII white
    space is first turned into a blank and any other non-ASCII character
    ends the text with a ['?']; then blanks, an optional sign, an optional
    base prefix followed by at most one underscore, digits separated by
    single underscores, blanks, and the end of the text.  Both bases are
    powers of two, so no limit on the number of digits applies. *)

Definition c_isspace (c : ascii) : bool :=
  let n := code c in between 9 13 n || (n =? 32).

Definition digit_value (c : ascii) : Z :=
  let n := code c in
  if between 48 57 n then n - 48
  else if between 97 122 n then n - 97 + 10
  else if between 65 90 n then n - 65 + 10
  else 37.

Fixpoint is_ascii (s : string) : bool :=
  match s with
  | EmptyString => true
  | String c s' => (code c <? 128) && is_ascii s'
  end.

Fixpoint transform_chars (s : string) : string :=
  match s with
  | EmptyString => EmptyString
  | String c s' =>
      if code c <? 127 then String c (transform_chars s')
      else if isspace c then String " " (transform_chars s')
      else String "?" EmptyString
  end.

Definition transform_decimal_and_space (s : string) : string :=
  if is_ascii s then s else transform_chars s.

Fixpoint skip_spaces (s : string) : string :=
  match s with
  | EmptyString => EmptyString
  | String c s' => if c_isspace c then skip_spaces s' else s
  end.

Definition is_underscore (c : ascii) : bool := Ascii.eqb c "_".

(** The digit loop: [prev] is the previous character (NUL at the start),
    [acc] the value so far, [n] the number of characters consumed.  [None]
    is a syntax error (two underscores in a row, or one at the end). *)
Fixpoint scan_digits (base : Z) (s : string) (prev : ascii) (acc : Z) (n : nat)
  : option (Z * nat * string) :=
  match s with
  | String c s' =>
      if is_underscore c then
        if is_underscore prev then None
        else scan_digits base s' c acc (S n)
      else if digit_value c <? base then
        scan_digits base s' c (acc * base + digit_value c) (S n)
      else if is_underscore prev then None else Some (acc, n, s)
  | EmptyString => if is_underscore prev then None else Some (acc, n, s)
  end.

Definition take_sign (s : string) : Z * string :=
  match s with
  | String "+" s' => (1, s')
  | String "-" s' => (-1, s')
  | _ => (1, s)
  end.

Definition prefix_letter (base : Z) (c : ascii) : bool :=
  ((base =? 16) && (Ascii.eqb c "x" || Ascii.eqb c "X"))
  || ((base =? 8) && (Ascii.eqb c "o" || Ascii.eqb c "O"))
  || ((base =? 2) && (Ascii.eqb c "b" || Ascii.eqb c "B")).

Definition skip_prefix (base : Z) (s : string) : string :=
  match s with
  | String "0" (String c s') =>
      if prefix_letter base c then
        match s' with
        | String "_" s'' => s''
        | _ => s'
        end
      else s
  | _ => s
  end.

Definition int (s : string) (base : Z) : Outcome Z :=
  let s1 := skip_spaces (transform_decimal_and_space s) in
  let '(sign, s2) := take_sign s1 in
  let s3 := skip_prefix base s2 in
  match s3 with
  | String "_" _ => Raise ValueError
  | _ =>
      match scan_digits base s3 "000" 0 0 with
      | None => Raise ValueError
      | Some (v, n, rest) =>
          if (n =? 0)%nat then Raise ValueError
          else match skip_spaces rest with
               | EmptyString => Ret (sign * v)
               | _ => Raise ValueError
               end
      end
  end.

End Py.

Import Py.

#[export] Instance outcome_ret : MRet Outcome := @Ret.
#[export] Instance outcome_bind : MBind Outcome := fun A B k m => Py.bind m k.
#[export] Instance outcome_fmap : FMap Outcome :=
  fun A B f m => Py.bind m (fun a => Ret (f a)).

(** ** The word parser *)

Definition parse_word (s : string) : Outcome (option Z) :=
  let s := strip s in
  if negb (truthy s) then Ret None
  else
    try_except
      (if startswith s "0x" || startswith s "0X" then
         v ← int s 16; Ret (Some v)
       else if all_in_01 s && (len s =? 32) then
         v ← int s 2; Ret (Some v)
       else
         v ← int s 16; Ret (Some v))
      (Ret None).

(** ** The instruction decoder *)

Definition R_FUNCTS : table :=
  [(0x20, "add"); (0x22, "sub"); (0x24, "and"); (0x25, "or"); (0x2A, "slt")].

Definition I_OPCODES : table :=
  [(0x08, "addi"); (0x23, "lw"); (0x2b, "sw"); (0x04, "beq"); (0x05, "bne")].

Definition J_OPCODES : table := [(0x02, "j")].

Definition DEFAULT_BASE_PC : Z := 0x00400000.

(** [f'{n:02x}']: lower-case hexadecimal digits, padded with zeros to two
    characters (a minus sign counts as one of them). *)
Definition hex_char (d : Z) : ascii :=
  if d <? 10 then ascii_of_N (Z.to_N (48 + d)) else ascii_of_N (Z.to_N (87 + d)).

Fixpoint hex_digits (fuel : nat) (n : Z) (acc : string) : string :=
  match fuel with
  | O => acc
  | S fuel' =>
      let acc' := String (hex_char (n mod 16)) acc in
      if n <? 16 then acc' else hex_digits fuel' (n / 16) acc'
  end.

Definition format_x (n : Z) : string :=
  hex_digits (S (Z.to_nat (Z.log2 n))) n "".

Definition format_02x (n : Z) : string :=
  if n <? 0 then
    let ds := format_x (- n) in
    "-" ++ (if len ds <? 1 then "0" ++ ds else ds)
  else
    let ds := format_x n in
    if len ds <? 2 then "0" ++ ds else ds.

(** The dictionary [decode] returns.  The keys ['type'], ['opcode'] and
    ['mnemonic'] are present in all three shapes; the others are present in
    some shapes only, and reading an absent one raises [KeyError]. *)
Record Decoded : Type := mkDecoded {
  d_type : string;
  d_opcode : Z;
  d_mnemonic : string;
  d_rs : option Z;
  d_rt : option Z;
  d_rd : option Z;
  d_shamt : option Z;
  d_funct : option Z;
  d_imm : option Z;
  d_address : option Z
}.

Definition decode (instr : Z) : Outcome Decoded :=
  let opcode := Z.land (Z.shiftr instr 26) 0x3F in
  if opcode =? 0 then
    let rs := Z.land (Z.shiftr instr 21) 0x1F in
    let rt := Z.land (Z.shiftr instr 16) 0x1F in
    let rd := Z.land (Z.shiftr instr 11) 0x1F in
    let shamt := Z.land (Z.shiftr instr 6) 0x1F in
    let funct := Z.land instr 0x3F in
    let mnemonic :=
      table_get R_FUNCTS funct ("unknown_r(0x" ++ format_02x funct ++ ")") in
    Ret {| d_type := "R"; d_opcode := opcode; d_mnemonic := mnemonic;
           d_rs := Some rs; d_rt := Some rt; d_rd := Some rd;
           d_shamt := Some shamt; d_funct := Some funct;
           d_imm := None; d_address := None |}
  else if table_contains J_OPCODES opcode then
    let addr := Z.land instr 0x03FFFFFF in
    mnemonic ← dict_item (table_lookup J_OPCODES opcode);
    Ret {| d_type := "J"; d_opcode := opcode; d_mnemonic := mnemonic;
           d_rs := None; d_rt := None; d_rd := None;
           d_shamt := None; d_funct := None;
           d_imm := None; d_address := Some addr |}
  else
    let rs := Z.land (Z.shiftr instr 21) 0x1F in
    let rt := Z.land (Z.shiftr instr 16) 0x1F in
    let imm := Z.land instr 0xFFFF in
    let imm := if negb (Z.land imm 0x8000 =? 0) then imm - 0x10000 else imm in
    let mnemonic :=
      table_get I_OPCODES opcode ("unknown_i(0x" ++ format_02x opcode ++ ")") in
    Ret {| d_type := "I"; d_opcode := opcode; d_mnemonic := mnemonic;
           d_rs := Some rs; d_rt := Some rt; d_rd := None;
           d_shamt := None; d_funct := None;
           d_imm := Some imm; d_address := None |}.

(** ** The machine *)

Record SimpleMIPS : Type := mkSimpleMIPS {
  regs : list Z;
  mem : gmap Z Z;
  pc : Z;
  base : Z;
  instrs : list Z;
  step_count : Z;
  halted : bool
}.

Definition set_regs (self : SimpleMIPS) (v : list Z) : SimpleMIPS :=
  mkSimpleMIPS v (mem self) (pc self) (base self) (instrs self)
    (step_count self) (halted self).

Definition set_mem (self : SimpleMIPS) (v : gmap Z Z) : SimpleMIPS :=
  mkSimpleMIPS (regs self) v (pc self) (base self) (instrs self)
    (step_count self) (halted self).

Definition set_pc (self : SimpleMIPS) (v : Z) : SimpleMIPS :=
  mkSimpleMIPS (regs self) (mem self) v (base self) (instrs self)
    (step_count self) (halted self).

Definition set_step_count (self : SimpleMIPS) (v : Z) : SimpleMIPS :=
  mkSimpleMIPS (regs self) (mem self) (pc self) (base self) (instrs self)
    v (halted self).

Definition set_halted (self : SimpleMIPS) (v : bool) : SimpleMIPS :=
  mkSimpleMIPS (regs self) (mem self) (pc self) (base self) (instrs self)
    (step_count self) v.

(** [SimpleMIPS.__init__] *)
Definition init (instr_words : list Z) (base_pc : Z) : SimpleMIPS :=
  {| regs := replicate 32 0;
     mem := ∅;
     pc := base_pc;
     base := base_pc;
     instrs := instr_words;
     step_count := 0;
     halted := false |}.

Definition fetch_instr_at_pc (self : SimpleMIPS) (pc : Z) : Outcome (option Z) :=
  let idx := (pc - base self) / 4 in
  if (idx <? 0) || (idx >=? Z.of_nat (length (instrs self))) then Ret None
  else w ← list_getitem (instrs self) idx; Ret (Some w).

(** The ['mem_access'] entry of a step result. *)
Record MemAccess : Type := mkMemAccess {
  ma_type : string;
  ma_addr : Z;
  ma_value : Z
}.

(** The dictionary [step] returns; which keys are present depends on the
    status. *)
Record StepResult : Type := mkStepResult {
  r_status : option string;
  r_pc : option Z;
  r_instr : option Z;
  r_decoded : option Decoded;
  r_mem_access : option MemAccess;
  r_step : option Z;
  r_regs_snapshot : option (list Z)
}.

Definition no_keys : StepResult :=
  mkStepResult None None None None None None None.

Definition with_status (r : StepResult) (v : string) : StepResult :=
  mkStepResult (Some v) (r_pc r) (r_instr r) (r_decoded r) (r_mem_access r)
    (r_step r) (r_regs_snapshot r).

Definition with_pc (r : StepResult) (v : Z) : StepResult :=
  mkStepResult (r_status r) (Some v) (r_instr r) (r_decoded r) (r_mem_access r)
    (r_step r) (r_regs_snapshot r).

Definition with_instr (r : StepResult) (v : Z) : StepResult :=
  mkStepResult (r_status r) (r_pc r) (Some v) (r_decoded r) (r_mem_access r)
    (r_step r) (r_regs_snapshot r).

Definition with_decoded (r : StepResult) (v : Decoded) : StepResult :=
  mkStepResult (r_status r) (r_pc r) (r_instr r) (Some v) (r_mem_access r)
    (r_step r) (r_regs_snapshot r).

Definition with_mem_access (r : StepResult) (v : MemAccess) : StepResult :=
  mkStepResult (r_status r) (r_pc r) (r_instr r) (r_decoded r) (Some v)
    (r_step r) (r_regs_snapshot r).

Definition with_step (r : StepResult) (v : Z) : StepResult :=
  mkStepResult (r_status r) (r_pc r) (r_instr r) (r_decoded r) (r_mem_access r)
    (Some v) (r_regs_snapshot r).

Definition with_regs_snapshot (r : StepResult) (v : list Z) : StepResult :=
  mkStepResult (r_status r) (r_pc r) (r_instr r) (r_decoded r) (r_mem_access r)
    (r_step r) (Some v).

(** Where the dispatch of [step] leaves control: at the code after the
    [if]/[elif] chain, or at a [return] inside it. *)
Inductive Flow : Type :=
| Next (self : SimpleMIPS) (action : StepResult)
| Return (r : StepResult) (self : SimpleMIPS).

Definition mask32 (x : Z) : Z := Z.land x 0xFFFFFFFF.

(** The branch [dec['type'] == 'R'] of [step]. *)
Definition step_R (self : SimpleMIPS) (dec : Decoded) (action : StepResult)
  : Outcome Flow :=
  rs ← dict_item (d_rs dec);
  rt ← dict_item (d_rt dec);
  rd ← dict_item (d_rd dec);
  self ←
    (if (d_mnemonic dec =? "add")%string then
       a ← list_getitem (regs self) rs;
       b ← list_getitem (regs self) rt;
       r ← list_setitem (regs self) rd (mask32 (a + b));
       Ret (set_regs self r)
     else if (d_mnemonic dec =? "sub")%string then
       a ← list_getitem (regs self) rs;
       b ← list_getitem (regs self) rt;
       r ← list_setitem (regs self) rd (mask32 (a - b));
       Ret (set_regs self r)
     else if (d_mnemonic dec =? "and")%string then
       a ← list_getitem (regs self) rs;
       b ← list_getitem (regs self) rt;
       r ← list_setitem (regs self) rd (Z.land a b);
       Ret (set_regs self r)
     else if (d_mnemonic dec =? "or")%string then
       a ← list_getitem (regs self) rs;
       b ← list_getitem (regs self) rt;
       r ← list_setitem (regs self) rd (Z.lor a b);
       Ret (set_regs self r)
     else if (d_mnemonic dec =? "slt")%string then
       a ← list_getitem (regs self) rs;
       b ← list_getitem (regs self) rt;
       r ← list_setitem (regs self) rd (if mask32 a <? mask32 b then 1 else 0);
       Ret (set_regs self r)
     else Ret self);
  Ret (Next (set_pc self (pc self + 4)) action).

(** The branch [dec['type'] == 'I'] of [step]. *)
Definition step_I (self : SimpleMIPS) (dec : Decoded) (action : StepResult)
  : Outcome Flow :=
  rs ← dict_item (d_rs dec);
  rt ← dict_item (d_rt dec);
  imm ← dict_item (d_imm dec);
  if (d_mnemonic dec =? "addi")%string then
    a ← list_getitem (regs self) rs;
    r ← list_setitem (regs self) rt (mask32 (a + imm));
    let self := set_regs self r in
    Ret (Next (set_pc self (pc self + 4)) action)
  else if (d_mnemonic dec =? "lw")%string then
    a ← list_getitem (regs self) rs;
    let addr := a + imm in
    let word := default 0 (mem self !! addr) in
    r ← list_setitem (regs self) rt word;
    let self := set_regs self r in
    let self := set_pc self (pc self + 4) in
    Ret (Next self (with_mem_access action (mkMemAccess "read" addr word)))
  else if (d_mnemonic dec =? "sw")%string then
    a ← list_getitem (regs self) rs;
    let addr := a + imm in
    b ← list_getitem (regs self) rt;
    let self := set_mem self (<[addr := mask32 b]> (mem self)) in
    let self := set_pc self (pc self + 4) in
    v ← dict_item (mem self !! addr);
    Ret (Next self (with_mem_access action (mkMemAccess "write" addr v)))
  else if (d_mnemonic dec =? "beq")%string then
    a ← list_getitem (regs self) rs;
    b ← list_getitem (regs self) rt;
    if a =? b then
      Ret (Next (set_pc self (pc self + 4 + Z.shiftl imm 2)) action)
    else
      Ret (Next (set_pc self (pc self + 4)) action)
  else if (d_mnemonic dec =? "bne")%string then
    a ← list_getitem (regs self) rs;
    b ← list_getitem (regs self) rt;
    if negb (a =? b) then
      Ret (Next (set_pc self (pc self + 4 + Z.shiftl imm 2)) action)
    else
      Ret (Next (set_pc self (pc self + 4)) action)
  else
    Ret (Next (set_pc self (pc self + 4)) action).

(** The branch [dec['type'] == 'J'] of [step]. *)
Definition step_J (self : SimpleMIPS) (dec : Decoded) (action : StepResult)
  : Outcome Flow :=
  if (d_mnemonic dec =? "j")%string then
    address ← dict_item (d_address dec);
    let target :=
      Z.lor (Z.land (pc self) 0xF0000000)
            (Z.land (Z.shiftl address 2) 0x0FFFFFFF) in
    Ret (Next (set_pc self target) action)
  else
    let self := set_halted self true in
    Ret (Return (with_decoded (with_status no_keys "unknown_j") dec) self).

Definition step (self : SimpleMIPS) : Outcome (StepResult * SimpleMIPS) :=
  if halted self then Ret (with_status no_keys "halted", self)
  else
    fetched ← fetch_instr_at_pc self (pc self);
    match fetched with
    | None =>
        let self' := set_halted self true in
        Ret (with_pc (with_status no_keys "pc_out_of_range") (pc self'), self')
    | Some instr =>
        dec ← decode instr;
        let action :=
          with_decoded (with_instr (with_pc no_keys (pc self)) instr) dec in
        flow ←
          (if (d_type dec =? "R")%string then step_R self dec action
           else if (d_type dec =? "I")%string then step_I self dec action
           else if (d_type dec =? "J")%string then step_J self dec action
           else
             let self := set_halted self true in
             Ret (Return (with_decoded (with_status no_keys "unknown_type") dec)
                         self));
        match flow with
        | Return r self => Ret (r, self)
        | Next self action =>
            r ← list_setitem (regs self) 0 0;
            let self := set_regs self r in
            let self := set_step_count self (step_count self + 1) in
            let action := with_status action "ok" in
            let action := with_step action (step_count self) in
            let action := with_regs_snapshot action (regs self) in
            Ret (action, self)
        end
    end.

(** [run_n]: the loop over [range(n)], which is empty for [n <= 0]. *)
Fixpoint run_loop (k : nat) (self : SimpleMIPS) (actions : list StepResult)
  : Outcome (list StepResult * SimpleMIPS) :=
  match k with
  | O => Ret (actions, self)
  | S k' =>
      if halted self then Ret (actions, self)
      else
        '(r, self') ← step self;
        run_loop k' self' (actions ++ [r])
  end.

Definition run_n (self : SimpleMIPS) (n : Z)
  : Outcome (list StepResult * SimpleMIPS) :=
  run_loop (Z.to_nat n) self [].

(** ** Vocabulary of the statements *)

(** The bit fields [decode] extracts from a word. *)
Definition f_opcode (w : Z) : Z := Z.land (Z.shiftr w 26) 0x3F.
Definition f_rs (w : Z) : Z := Z.land (Z.shiftr w 21) 0x1F.
Definition f_rt (w : Z) : Z := Z.land (Z.shiftr w 16) 0x1F.
Definition f_rd (w : Z) : Z := Z.land (Z.shiftr w 11) 0x1F.
Definition f_shamt (w : Z) : Z := Z.land (Z.shiftr w 6) 0x1F.
Definition f_funct (w : Z) : Z := Z.land w 0x3F.
Definition f_imm (w : Z) : Z :=
  let imm := Z.land w 0xFFFF in
  if negb (Z.land imm 0x8000 =? 0) then imm - 0x10000 else imm.
Definition f_address (w : Z) : Z := Z.land w 0x03FFFFFF.

(** The value register [i] holds, for an index in range. *)
Definition reg (s : SimpleMIPS) (i : Z) : Z := nth (Z.to_nat i) (regs s) 0.

Definition jump_target (p a : Z) : Z :=
  Z.lor (Z.land p 0xF0000000) (Z.land (Z.shiftl a 2) 0x0FFFFFFF).

(** What the dispatch of [step] does to registers, memory and program
    counter on the word [w], one constructor per path through it; the last
    component is the ['mem_access'] entry, if the path adds one. *)
Inductive exec (s : SimpleMIPS) (w : Z)
  : list Z -> gmap Z Z -> Z -> option MemAccess -> Prop :=
| ex_add : f_opcode w = 0 -> f_funct w = 0x20 ->
    exec s w
      (<[Z.to_nat (f_rd w) := mask32 (reg s (f_rs w) + reg s (f_rt w))]> (regs s))
      (mem s) (pc s + 4) None
| ex_sub : f_opcode w = 0 -> f_funct w = 0x22 ->
    exec s w
      (<[Z.to_nat (f_rd w) := mask32 (reg s (f_rs w) - reg s (f_rt w))]> (regs s))
      (mem s) (pc s + 4) None
| ex_and : f_opcode w = 0 -> f_funct w = 0x24 ->
    exec s w
      (<[Z.to_nat (f_rd w) := Z.land (reg s (f_rs w)) (reg s (f_rt w))]> (regs s))
      (mem s) (pc s + 4) None
| ex_or : f_opcode w = 0 -> f_funct w = 0x25 ->
    exec s w
      (<[Z.to_nat (f_rd w) := Z.lor (reg s (f_rs w)) (reg s (f_rt w))]> (regs s))
      (mem s) (pc s + 4) None
| ex_slt : f_opcode w = 0 -> f_funct w = 0x2A ->
    exec s w
      (<[Z.to_nat (f_rd w) :=
           if mask32 (reg s (f_rs w)) <? mask32 (reg s (f_rt w)) then 1 else 0]>
         (regs s))
      (mem s) (pc s + 4) None
| ex_unknown_r : f_opcode w = 0 -> table_lookup R_FUNCTS (f_funct w) = None ->
    exec s w (regs s) (mem s) (pc s + 4) None
| ex_addi : f_opcode w = 0x08 ->
    exec s w
      (<[Z.to_nat (f_rt w) := mask32 (reg s (f_rs w) + f_imm w)]> (regs s))
      (mem s) (pc s + 4) None
| ex_lw addr word : f_opcode w = 0x23 ->
    addr = reg s (f_rs w) + f_imm w ->
    word = default 0 (mem s !! addr) ->
    exec s w (<[Z.to_nat (f_rt w) := word]> (regs s))
      (mem s) (pc s + 4) (Some (mkMemAccess "read" addr word))
| ex_sw addr : f_opcode w = 0x2b ->
    addr = reg s (f_rs w) + f_imm w ->
    exec s w (regs s) (<[addr := mask32 (reg s (f_rt w))]> (mem s)) (pc s + 4)
      (Some (mkMemAccess "write" addr (mask32 (reg s (f_rt w)))))
| ex_beq_taken : f_opcode w = 0x04 -> reg s (f_rs w) = reg s (f_rt w) ->
    exec s w (regs s) (mem s) (pc s + 4 + Z.shiftl (f_imm w) 2) None
| ex_beq_fall : f_opcode w = 0x04 -> reg s (f_rs w) <> reg s (f_rt w) ->
    exec s w (regs s) (mem s) (pc s + 4) None
| ex_bne_taken : f_opcode w = 0x05 -> reg s (f_rs w) <> reg s (f_rt w) ->
    exec s w (regs s) (mem s) (pc s + 4 + Z.shiftl (f_imm w) 2) None
| ex_bne_fall : f_opcode w = 0x05 -> reg s (f_rs w) = reg s (f_rt w) ->
    exec s w (regs s) (mem s) (pc s + 4) None
| ex_unknown_i : f_opcode w <> 0 ->
    table_lookup J_OPCODES (f_opcode w) = None ->
    table_lookup I_OPCODES (f_opcode w) = None ->
    exec s w (regs s) (mem s) (pc s + 4) None
| ex_j : f_opcode w = 0x02 ->
    exec s w (regs s) (mem s) (jump_target (pc s) (f_address w)) None.

(** The three results [step] builds. *)
Definition halted_result : StepResult := with_status no_keys "halted".

Definition out_of_range_result (p : Z) : StepResult :=
  with_pc (with_status no_keys "pc_out_of_range") p.

Definition ok_result (s : SimpleMIPS) (w : Z) (d : Decoded)
    (ma : option MemAccess) (rg : list Z) : StepResult :=
  mkStepResult (Some "ok") (Some (pc s)) (Some w) (Some d) ma
    (Some (step_count s + 1)) (Some rg).

(** The state an ["ok"] step leaves, from what the dispatch computed. *)
Definition ok_state (s : SimpleMIPS) (rg : list Z) (m : gmap Z Z) (p : Z)
  : SimpleMIPS :=
  mkSimpleMIPS (<[0%nat := 0]> rg) m p (base s) (instrs s) (step_count s + 1)
    false.

(** States the program can be in: built by the constructor and advanced by
    [step] only. *)
Inductive reachable : SimpleMIPS -> Prop :=
| reach_init instr_words base_pc : reachable (init instr_words base_pc)
| reach_step s r s' : reachable s -> step s = Ret (r, s') -> reachable s'.

Definition in32 (x : Z) : Prop := 0 <= x < 2 ^ 32.

Definition wf (s : SimpleMIPS) : Prop := length (regs s) = 32%nat.

Record inv (s : SimpleMIPS) : Prop := mkInv {
  inv_len : length (regs s) = 32%nat;
  inv_regs : Forall in32 (regs s);
  inv_zero : regs s !! 0%nat = Some 0;
  inv_mem : map_Forall (fun _ v => in32 v) (mem s)
}.

(** [k] calls of [step] in a row with no test in between, and their results
    in order: what [run_n] is compared with. *)
Fixpoint iter_step (k : nat) (s : SimpleMIPS)
  : Outcome (list StepResult * SimpleMIPS) :=
  match k with
  | O => Ret ([], s)
  | S k' =>
      '(r, s1) ← step s;
      '(l, s2) ← iter_step k' s1;
      Ret (r :: l, s2)
  end.

(** Words that are neither a jump nor a branch. *)
Definition straight_line (w : Z) : Prop :=
  f_opcode w <> 0x02 /\ f_opcode w <> 0x04 /\ f_opcode w <> 0x05.


(** A text made of white space only. *)
Fixpoint blank (s : string) : bool :=
  match s with
  | EmptyString => true
  | String c s' => isspace c && blank s'
  end.

(** The base [parse_word] converts the trimmed text [t] in. *)
Definition word_base (t : string) : Z :=
  if startswith t "0x" || startswith t "0X" then 16
  else if all_in_01 t && (len t =? 32) then 2
  else 16.

(** The three ways a call of [step] can go on a machine with 32 registers. *)
Inductive step_case (s : SimpleMIPS) : StepResult -> SimpleMIPS -> Prop :=
| sc_halted :
    halted s = true -> step_case s halted_result s
| sc_out_of_range :
    halted s = false -> fetch_instr_at_pc s (pc s) = Ret None ->
    step_case s (out_of_range_result (pc s)) (set_halted s true)
| sc_ok w d rg m p ma :
    halted s = false -> fetch_instr_at_pc s (pc s) = Ret (Some w) ->
    decode w = Ret d -> exec s w rg m p ma ->
    step_case s (ok_result s w d ma (<[0%nat := 0]> rg)) (ok_state s rg m p).

(** ** Display of a decoded instruction *)

(** [str(n)], as an f-string field [{n}] renders an integer: decimal digits,
    with a minus sign in front of a negative one. *)
Definition dec_char (d : Z) : ascii := ascii_of_N (Z.to_N (48 + d)).

Fixpoint dec_digits (fuel : nat) (n : Z) (acc : string) : string :=
  match fuel with
  | O => acc
  | S fuel' =>
      let acc' := String (dec_char (n mod 10)) acc in
      if n <? 10 then acc' else dec_digits fuel' (n / 10) acc'
  end.

Definition str_int (n : Z) : string :=
  if n <? 0 then "-" ++ dec_digits (S (Z.to_nat (Z.log2 (- n)))) (- n) ""
  else dec_digits (S (Z.to_nat (Z.log2 n))) n "".

Fixpoint zeros (k : nat) : string :=
  match k with
  | O => ""
  | S k' => String "0" (zeros k')
  end.

(** [f'{n:07x}']: as [format_02x], to seven characters. *)
Definition format_07x (n : Z) : string :=
  if n <? 0 then
    let ds := format_x (- n) in
    "-" ++ zeros (6 - String.length ds) ++ ds
  else
    let ds := format_x n in
    zeros (7 - String.length ds) ++ ds.

Definition format_decoded (d : Decoded) : Outcome string :=
  if (d_type d =? "R")%string then
    rs ← dict_item (d_rs d);
    rt ← dict_item (d_rt d);
    rd ← dict_item (d_rd d);
    shamt ← dict_item (d_shamt d);
    funct ← dict_item (d_funct d);
    Ret ("R-type: " ++ d_mnemonic d ++ " rs=$" ++ str_int rs
         ++ " rt=$" ++ str_int rt ++ " rd=$" ++ str_int rd
         ++ " shamt=" ++ str_int shamt ++ " funct=0x" ++ format_02x funct)
  else if (d_type d =? "I")%string then
    rs ← dict_item (d_rs d);
    rt ← dict_item (d_rt d);
    imm ← dict_item (d_imm d);
    Ret ("I-type: " ++ d_mnemonic d ++ " rs=$" ++ str_int rs
         ++ " rt=$" ++ str_int rt ++ " imm=" ++ str_int imm)
  else
    address ← dict_item (d_address d);
    Ret ("J-type: " ++ d_mnemonic d ++ " addr=0x" ++ format_07x address).

(** ** The load handler of [streamlit_app.py]

    The body of [if st.button('Decode Instructions')]: the lines that parse
    are collected in order, each word is listed with the address it will
    occupy, and a fresh machine is built from the words. *)

(** An entry of [st.session_state.decoded]. *)
Record ListingEntry : Type := mkListingEntry {
  le_pc : Z;
  le_word : Z;
  le_decoded : Decoded
}.

(** The loop [for ln in source_lines], started with the list [words]. *)
Fixpoint collect_words (source_lines : list string) (words : list Z)
  : Outcome (list Z) :=
  match source_lines with
  | [] => Ret words
  | ln :: rest =>
      w ← parse_word ln;
      match w with
      | Some v => collect_words rest (words ++ [v])
      | None => collect_words rest words
      end
  end.

(** The loop [for w in words], started with the counter [pc] and the list
    [decoded]. *)
Fixpoint decode_listing (words : list Z) (pc : Z) (decoded : list ListingEntry)
  : Outcome (list ListingEntry) :=
  match words with
  | [] => Ret decoded
  | w :: rest =>
      d ← decode w;
      decode_listing rest (pc + 4) (decoded ++ [mkListingEntry pc w d])
  end.

Definition decode_instructions (source_lines : list string) (base_pc_val : Z)
  : Outcome (list Z * list ListingEntry * SimpleMIPS) :=
  words ← collect_words source_lines [];
  decoded ← decode_listing words base_pc_val [];
  Ret (words, decoded, init words base_pc_val).

(** ** Further vocabulary *)

(** Texts of hexadecimal digits and their value, most significant first. *)
Definition is_hexdigit (c : ascii) : bool := digit_value c <? 16.

Fixpoint all_hexdigits (s : string) : bool :=
  match s with
  | EmptyString => true
  | String c s' => is_hexdigit c && all_hexdigits s'
  end.

Fixpoint hex_value (s : string) (acc : Z) : Z :=
  match s with
  | EmptyString => acc
  | String c s' => hex_value s' (acc * 16 + digit_value c)
  end.

Definition is_ok (r : StepResult) : bool :=
  match r_status r with
  | Some st => (st =? "ok")%string
  | None => false
  end.

(** The number of results with status ["ok"]. *)
Fixpoint count_ok (l : list StepResult) : Z :=
  match l with
  | [] => 0
  | r :: l' => (if is_ok r then 1 else 0) + count_ok l'
  end.

(** The words of the three instruction formats, from their fields. *)
Definition word_R (rs rt rd shamt funct : Z) : Z :=
  rs * 2 ^ 21 + rt * 2 ^ 16 + rd * 2 ^ 11 + shamt * 2 ^ 6 + funct.

Definition word_I (opcode rs rt imm : Z) : Z :=
  opcode * 2 ^ 26 + rs * 2 ^ 21 + rt * 2 ^ 16 + imm mod 2 ^ 16.

Definition word_J (address : Z) : Z := 2 * 2 ^ 26 + address.

(** What a line contributes to the list of words: its value if it parses,
    nothing otherwise. *)
Definition line_word (ln : string) : option Z :=
  match parse_word ln with
  | Ret o => o
  | Raise _ => None
  end.

(** * Properties *)

(** ** The embedding on concrete inputs *)

Example parse_word_examples :
  parse_word " 0x08000010 " = Ret (Some 0x08000010) /\
  parse_word "00000000000000000000000000000101" = Ret (Some 5) /\
  parse_word "2001ffff" = Ret (Some 0x2001FFFF) /\
  parse_word "0x_1f" = Ret (Some 31) /\
  parse_word "0x" = Ret None /\
  parse_word "1__0" = Ret None /\
  parse_word "12 34" = Ret None /\
  parse_word "" = Ret None.
Proof. repeat split. Qed.

Example decode_sign_extension :
  f_imm 0x2001FFFF = -1 /\ f_imm 0x20017FFF = 32767 /\ f_imm 0x20018000 = -32768.
Proof. repeat split. Qed.

Example decode_unknown_mnemonics :
  (d_mnemonic <$> decode 0x0000003F) = Ret "unknown_r(0x3f)" /\
  (d_mnemonic <$> decode 0xFC000000) = Ret "unknown_i(0x3f)".
Proof. split; reflexivity. Qed.

(** ** Arithmetic and containers *)

Lemma land_mask_bound x k : 0 <= k -> 0 <= Z.land x (Z.ones k) < 2 ^ k.
Proof.
  intros Hk. rewrite Z.land_ones by assumption. apply Z.mod_pos_bound.
  apply Z.pow_pos_nonneg; lia.
Qed.

Lemma land_31 x : 0 <= Z.land x 0x1F < 32.
Proof. apply (land_mask_bound x 5). lia. Qed.

Lemma land_63 x : 0 <= Z.land x 0x3F < 64.
Proof. apply (land_mask_bound x 6). lia. Qed.

Lemma mask32_bound x : 0 <= mask32 x < 2 ^ 32.
Proof. apply (land_mask_bound x 32). lia. Qed.

Lemma list_getitem_in_range (l : list Z) i :
  0 <= i < Z.of_nat (length l) ->
  list_getitem l i = Ret (nth (Z.to_nat i) l 0).
Proof.
  intros Hi. unfold list_getitem, norm_index.
  replace (0 <=? i) with true by (symmetry; apply Z.leb_le; lia).
  replace (i <? Z.of_nat (length l)) with true by (symmetry; apply Z.ltb_lt; lia).
  cbn. destruct (l !! Z.to_nat i) eqn:E.
  - f_equal. symmetry. apply nth_lookup_Some with (d := 0) in E. exact E.
  - apply lookup_ge_None in E. lia.
Qed.

Lemma list_setitem_in_range (l : list Z) i v :
  0 <= i < Z.of_nat (length l) ->
  list_setitem l i v = Ret (<[Z.to_nat i := v]> l).
Proof.
  intros Hi. unfold list_setitem, norm_index.
  replace (0 <=? i) with true by (symmetry; apply Z.leb_le; lia).
  replace (i <? Z.of_nat (length l)) with true by (symmetry; apply Z.ltb_lt; lia).
  reflexivity.
Qed.

(** ** Symbolic execution of [step] *)

Local Arguments Z.land : simpl never.
Local Arguments Z.lor : simpl never.
Local Arguments Z.shiftr : simpl never.
Local Arguments Z.shiftl : simpl never.
Local Arguments Z.div : simpl never.
Local Arguments Z.add : simpl never.
Local Arguments Z.sub : simpl never.
Local Arguments Z.ltb : simpl never.
Local Arguments Z.eqb : simpl never.
Local Arguments format_02x : simpl never.
Local Arguments f_imm : simpl never.

Ltac reg_ok :=
  match goal with
  | H : wf _ |- _ => unfold wf in H; rewrite ?H; cbn; apply land_31
  end.


Lemma append_eqb_head (c : ascii) (p y k : string) :
  match k with
  | String c' _ => negb (Ascii.eqb c c')
  | EmptyString => true
  end = true ->
  (String c p +:+ y =? k)%string = false.
Proof.
  destruct k as [|c' k']; intros H.
  - reflexivity.
  - change (String c p +:+ y) with (String c (p +:+ y)).
    apply String.eqb_neq. intros E. injection E as E1 E2. subst c'.
    rewrite Ascii.eqb_refl in H. discriminate H.
Qed.

Ltac unknown_mn := rewrite ?append_eqb_head by reflexivity; cbn.

Ltac unfold_setters :=
  unfold set_step_count, set_regs, set_pc, set_mem, set_halted,
    with_regs_snapshot, with_step, with_status, with_decoded, with_instr,
    with_pc, with_mem_access, no_keys, ok_result, ok_state; cbn.

Ltac run_regs Hwf :=
  rewrite ?list_getitem_in_range by reg_ok; cbn;
  rewrite ?list_setitem_in_range by reg_ok; cbn;
  rewrite ?list_getitem_in_range by reg_ok; cbn;
  rewrite ?list_setitem_in_range
    by (cbn; rewrite ?length_insert; unfold wf in Hwf; rewrite Hwf; lia);
  cbn.

Ltac finish Hh c :=
  do 5 eexists; split; [reflexivity|]; split;
  [ c | unfold_setters; rewrite ?Hh; reflexivity ].

Lemma step_running s w :
  wf s -> halted s = false ->
  fetch_instr_at_pc s (pc s) = Ret (Some w) ->
  exists d rg m p ma,
    decode w = Ret d /\ exec s w rg m p ma /\
    step s = Ret (ok_result s w d ma (<[0%nat := 0]> rg), ok_state s rg m p).
Proof.
  intros Hwf Hh Hf. unfold step. rewrite Hh, Hf. cbn.
  unfold decode.
  destruct (Z.eqb_spec (Z.land (Z.shiftr w 26) 63) 0) as [Hop|Hop].
  - cbn. unfold table_get. cbn.
    destruct (Z.eqb_spec (Z.land w 63) 32) as [F1|F1];
      [cbn; unfold step_R; cbn; run_regs Hwf; finish Hh ltac:(apply ex_add; assumption)|].
    destruct (Z.eqb_spec (Z.land w 63) 34) as [F2|F2];
      [cbn; unfold step_R; cbn; run_regs Hwf; finish Hh ltac:(apply ex_sub; assumption)|].
    destruct (Z.eqb_spec (Z.land w 63) 36) as [F3|F3];
      [cbn; unfold step_R; cbn; run_regs Hwf; finish Hh ltac:(apply ex_and; assumption)|].
    destruct (Z.eqb_spec (Z.land w 63) 37) as [F4|F4];
      [cbn; unfold step_R; cbn; run_regs Hwf; finish Hh ltac:(apply ex_or; assumption)|].
    destruct (Z.eqb_spec (Z.land w 63) 42) as [F5|F5];
      [cbn; unfold step_R; cbn; run_regs Hwf; finish Hh ltac:(apply ex_slt; assumption)|].
    cbn; unfold step_R; cbn; unknown_mn; run_regs Hwf.
    finish Hh ltac:(apply ex_unknown_r; [assumption|]).
    unfold f_funct, R_FUNCTS; cbn.
    repeat match goal with
           | |- context [?a =? ?b] => destruct (Z.eqb_spec a b); [contradiction|]
           end.
    reflexivity.
  - unfold table_contains. cbn.
    destruct (Z.eqb_spec (Z.land (Z.shiftr w 26) 63) 2) as [J|J].
    + cbn. rewrite J. cbn. unfold step_J. cbn.
      run_regs Hwf. finish Hh ltac:(apply ex_j; assumption).
    + cbn. unfold table_get. cbn.
      change (if negb (Z.land (Z.land w 65535) 32768 =? 0)
              then Z.land w 65535 - 65536 else Z.land w 65535) with (f_imm w).
      destruct (Z.eqb_spec (Z.land (Z.shiftr w 26) 63) 8) as [I1|I1];
        [cbn; unfold step_I; cbn; run_regs Hwf; finish Hh ltac:(apply ex_addi; assumption)|].
      destruct (Z.eqb_spec (Z.land (Z.shiftr w 26) 63) 35) as [I2|I2];
        [cbn; unfold step_I; cbn; run_regs Hwf;
         finish Hh ltac:(eapply ex_lw; [assumption|reflexivity|reflexivity])|].
      destruct (Z.eqb_spec (Z.land (Z.shiftr w 26) 63) 43) as [I3|I3].
      { cbn; unfold step_I; cbn; run_regs Hwf.
        unfold_setters. rewrite lookup_insert_eq. cbn. run_regs Hwf.
        finish Hh ltac:(eapply ex_sw; [assumption|reflexivity]). }
      destruct (Z.eqb_spec (Z.land (Z.shiftr w 26) 63) 4) as [I4|I4].
      { cbn; unfold step_I; cbn; run_regs Hwf.
        destruct (Z.eqb_spec (nth (Z.to_nat (Z.land (Z.shiftr w 21) 31)) (regs s) 0)
                   (nth (Z.to_nat (Z.land (Z.shiftr w 16) 31)) (regs s) 0));
          cbn; run_regs Hwf.
        - finish Hh ltac:(apply ex_beq_taken; solve [assumption | unfold reg, f_rs, f_rt; assumption]).
        - finish Hh ltac:(apply ex_beq_fall; solve [assumption | unfold reg, f_rs, f_rt; assumption]). }
      destruct (Z.eqb_spec (Z.land (Z.shiftr w 26) 63) 5) as [I5|I5].
      { cbn; unfold step_I; cbn; run_regs Hwf.
        destruct (Z.eqb_spec (nth (Z.to_nat (Z.land (Z.shiftr w 21) 31)) (regs s) 0)
                   (nth (Z.to_nat (Z.land (Z.shiftr w 16) 31)) (regs s) 0));
          cbn; run_regs Hwf.
        - finish Hh ltac:(apply ex_bne_fall; solve [assumption | unfold reg, f_rs, f_rt; assumption]).
        - finish Hh ltac:(apply ex_bne_taken; solve [assumption | unfold reg, f_rs, f_rt; assumption]). }
      cbn; unfold step_I; cbn; unknown_mn; run_regs Hwf.
      finish Hh ltac:(apply ex_unknown_i; [assumption| |]).
      * unfold f_opcode, J_OPCODES. cbn.
        destruct (Z.eqb_spec (Z.land (Z.shiftr w 26) 63) 2); [contradiction|reflexivity].
      * unfold f_opcode, I_OPCODES; cbn.
        repeat match goal with
           | |- context [?a =? ?b] => destruct (Z.eqb_spec a b); [contradiction|]
           end.
        reflexivity.
Qed.

(** ** Fetching and decoding *)

Lemma lookup_nth (l : list Z) (k : nat) :
  (k < length l)%nat -> l !! k = Some (nth k l 0).
Proof.
  intros Hk. destruct (lookup_lt_is_Some_2 l k Hk) as [x Hx].
  rewrite Hx. f_equal. symmetry. apply nth_lookup_Some with (d := 0). exact Hx.
Qed.

Lemma fetch_cases s p :
  (fetch_instr_at_pc s p = Ret None /\
   ((p - base s) / 4 < 0 \/ Z.of_nat (length (instrs s)) <= (p - base s) / 4))
  \/ (exists w, fetch_instr_at_pc s p = Ret (Some w) /\
        0 <= (p - base s) / 4 < Z.of_nat (length (instrs s)) /\
        instrs s !! Z.to_nat ((p - base s) / 4) = Some w).
Proof.
  unfold fetch_instr_at_pc.
  destruct (Z.ltb_spec ((p - base s) / 4) 0) as [Hlo|Hlo]; cbn.
  { left. split; [reflexivity | lia]. }
  destruct (Z.geb_spec ((p - base s) / 4) (Z.of_nat (length (instrs s))))
    as [Hhi|Hhi]; cbn.
  { left. split; [reflexivity | lia]. }
  right. rewrite list_getitem_in_range by lia. cbn.
  eexists. split; [reflexivity|]. split; [lia|].
  apply lookup_nth. lia.
Qed.

(** Every word decodes, into one of three shapes fixed by its opcode. *)
Lemma decode_shape w :
  exists d, decode w = Ret d /\ d_opcode d = f_opcode w /\
    ((f_opcode w = 0 /\ d_type d = "R" /\
      d_rs d = Some (f_rs w) /\ d_rt d = Some (f_rt w) /\
      d_rd d = Some (f_rd w) /\ d_shamt d = Some (f_shamt w) /\
      d_funct d = Some (f_funct w) /\ d_address d = None /\
      d_mnemonic d =
        table_get R_FUNCTS (f_funct w)
          ("unknown_r(0x" ++ format_02x (f_funct w) ++ ")"))
     \/ (f_opcode w = 0x02 /\ d_type d = "J" /\ d_mnemonic d = "j" /\
         d_rs d = None /\ d_rt d = None /\ d_rd d = None /\
         d_address d = Some (f_address w))
     \/ (f_opcode w <> 0 /\ f_opcode w <> 0x02 /\ d_type d = "I" /\
         d_rs d = Some (f_rs w) /\ d_rt d = Some (f_rt w) /\
         d_rd d = None /\ d_imm d = Some (f_imm w) /\ d_address d = None /\
         d_mnemonic d =
           table_get I_OPCODES (f_opcode w)
             ("unknown_i(0x" ++ format_02x (f_opcode w) ++ ")"))).
Proof.
  unfold decode. fold (f_opcode w).
  destruct (Z.eqb_spec (f_opcode w) 0) as [Hop|Hop].
  - eexists. split; [reflexivity|]. split; [reflexivity|]. left.
    repeat split; assumption.
  - unfold table_contains, J_OPCODES. cbn.
    destruct (Z.eqb_spec (f_opcode w) 2) as [J|J].
    + cbn. eexists. split; [reflexivity|]. split; [reflexivity|].
      right. left. repeat split; assumption.
    + eexists. split; [reflexivity|]. split; [reflexivity|].
      right. right. repeat split; assumption.
Qed.

Lemma decode_type_J w d :
  decode w = Ret d -> d_type d = "J" ->
  f_opcode w = 0x02 /\ d_mnemonic d = "j" /\ d_address d = Some (f_address w).
Proof.
  intros Hd Ht. destruct (decode_shape w) as (d' & Hd' & _ & Hc).
  rewrite Hd in Hd'. injection Hd' as <-.
  destruct Hc as [Hc | [Hc | Hc]].
  - destruct Hc as (_ & Ht' & _). rewrite Ht' in Ht. discriminate Ht.
  - tauto.
  - destruct Hc as (_ & _ & Ht' & _). rewrite Ht' in Ht. discriminate Ht.
Qed.

Lemma decode_type_R w d :
  decode w = Ret d -> d_type d = "R" ->
  f_opcode w = 0 /\ d_funct d = Some (f_funct w) /\ d_rd d = Some (f_rd w) /\
  d_rs d = Some (f_rs w) /\ d_rt d = Some (f_rt w).
Proof.
  intros Hd Ht. destruct (decode_shape w) as (d' & Hd' & _ & Hc).
  rewrite Hd in Hd'. injection Hd' as <-.
  destruct Hc as [Hc | [Hc | Hc]].
  - tauto.
  - destruct Hc as (_ & Ht' & _). rewrite Ht' in Ht. discriminate Ht.
  - destruct Hc as (_ & _ & Ht' & _). rewrite Ht' in Ht. discriminate Ht.
Qed.

(** ** One step, by cases *)

Lemma step_halted s :
  halted s = true -> step s = Ret (halted_result, s).
Proof. intros Hh. unfold step. rewrite Hh. reflexivity. Qed.

Lemma step_out_of_range s :
  halted s = false -> fetch_instr_at_pc s (pc s) = Ret None ->
  step s = Ret (out_of_range_result (pc s), set_halted s true).
Proof. intros Hh Hf. unfold step. rewrite Hh, Hf. reflexivity. Qed.

Lemma step_cases s :
  wf s -> exists r s', step s = Ret (r, s') /\ step_case s r s'.
Proof.
  intros Hwf. destruct (halted s) eqn:Hh.
  - exists halted_result, s. split; [apply step_halted; exact Hh|].
    apply sc_halted; exact Hh.
  - destruct (fetch_cases s (pc s)) as [[Hf _] | (w & Hf & _)].
    + eexists _, _. split; [apply step_out_of_range; assumption|].
      apply sc_out_of_range; assumption.
    + destruct (step_running s w Hwf Hh Hf) as (d & rg & m & p & ma & Hd & He & Hs).
      eexists _, _. split; [exact Hs|]. eapply sc_ok; eassumption.
Qed.

Lemma step_case_of s r s' :
  wf s -> step s = Ret (r, s') -> step_case s r s'.
Proof.
  intros Hwf Hs. destruct (step_cases s Hwf) as (r0 & s0 & Hs0 & Hc).
  rewrite Hs in Hs0. injection Hs0 as <- <-. exact Hc.
Qed.

(** ** Values stay within 32 bits *)

Lemma in32_mask x : in32 x <-> mask32 x = x.
Proof.
  unfold in32, mask32. change 0xFFFFFFFF with (Z.ones 32).
  rewrite Z.land_ones by lia. split.
  - intros H. apply Z.mod_small. exact H.
  - intros H. rewrite <- H. apply Z.mod_pos_bound. lia.
Qed.

Lemma in32_mask32 x : in32 (mask32 x).
Proof. apply mask32_bound. Qed.

Lemma in32_land a b : in32 a -> in32 (Z.land a b).
Proof.
  intros Ha. apply in32_mask. apply in32_mask in Ha. unfold mask32 in *.
  rewrite <- Ha at 2.
  rewrite <- !Z.land_assoc. f_equal. apply Z.land_comm.
Qed.

Lemma in32_lor a b : in32 a -> in32 b -> in32 (Z.lor a b).
Proof.
  intros Ha Hb. apply in32_mask. apply in32_mask in Ha, Hb. unfold mask32 in *.
  rewrite Z.land_lor_distr_l. rewrite Ha, Hb. reflexivity.
Qed.

Lemma in32_0 : in32 0.
Proof. unfold in32. lia. Qed.

Lemma in32_1 : in32 1.
Proof. unfold in32. lia. Qed.

Lemma in32_nth (l : list Z) k : Forall in32 l -> in32 (nth k l 0).
Proof.
  intros Hl. destruct (nth_in_or_default k l 0) as [Hin | Hd].
  - rewrite Forall_forall in Hl. apply Hl. apply list_elem_of_In. exact Hin.
  - rewrite Hd. apply in32_0.
Qed.

Lemma in32_reg s i : Forall in32 (regs s) -> in32 (reg s i).
Proof. apply in32_nth. Qed.

Lemma Forall_in32_insert (l : list Z) k v :
  Forall in32 l -> in32 v -> Forall in32 (<[k := v]> l).
Proof. intros Hl Hv. apply Forall_insert; assumption. Qed.

Create HintDb in32.

#[local] Hint Resolve in32_mask32 in32_land in32_lor in32_0 in32_1 in32_reg
  Forall_in32_insert : in32.

(** What the dispatch computes keeps 32 registers, all within 32 bits, and a
    memory whose words are within 32 bits. *)
Lemma exec_in32 s w rg m p ma :
  inv s -> exec s w rg m p ma ->
  length rg = 32%nat /\ Forall in32 rg /\ map_Forall (fun _ v => in32 v) m.
Proof.
  intros [Hlen Hregs Hz Hmem] He.
  destruct He; rewrite ?length_insert; (split; [exact Hlen|]);
    (split; [| try exact Hmem]); auto with in32.
  - apply Forall_in32_insert; [assumption|].
    destruct (_ <? _); auto with in32.
  - subst word. apply Forall_in32_insert; [assumption|].
    destruct (mem s !! addr) as [v|] eqn:E; cbn; [| apply in32_0].
    apply (Hmem _ _ E).
  - apply map_Forall_insert_2; [apply in32_mask32 | exact Hmem].
Qed.

Lemma inv_wf s : inv s -> wf s.
Proof. intros H. exact (inv_len s H). Qed.

Lemma inv_init ws b : inv (init ws b).
Proof.
  split; cbn.
  - reflexivity.
  - repeat constructor; apply in32_0.
  - reflexivity.
  - apply map_Forall_empty.
Qed.

Lemma step_case_inv s r s' : inv s -> step_case s r s' -> inv s'.
Proof.
  intros Hi Hc. destruct Hc as [Hh | Hh Hf | w d rg m p ma Hh Hf Hd He].
  - exact Hi.
  - destruct Hi as [H1 H2 H3 H4]. split; assumption.
  - destruct (exec_in32 _ _ _ _ _ _ Hi He) as (Hl & Hr & Hm).
    split; cbn.
    + rewrite length_insert. exact Hl.
    + apply Forall_in32_insert; [exact Hr | apply in32_0].
    + apply list_lookup_insert_eq. rewrite Hl. lia.
    + exact Hm.
Qed.

Lemma reachable_inv s : reachable s -> inv s.
Proof.
  induction 1 as [ws b | s r s' Hr IH Hs].
  - apply inv_init.
  - apply (step_case_inv s r s' IH). apply step_case_of; [|exact Hs].
    apply inv_wf. exact IH.
Qed.

Lemma reachable_wf s : reachable s -> wf s.
Proof. intros H. apply inv_wf, reachable_inv, H. Qed.

(** ** Reading the mnemonic back *)

Lemma R_mnemonic_add f :
  table_get R_FUNCTS f ("unknown_r(0x" ++ format_02x f ++ ")") = "add" ->
  f = 0x20.
Proof.
  unfold table_get, R_FUNCTS. cbn.
  repeat (match goal with
          | |- context [?a =? ?b] => destruct (Z.eqb_spec a b)
          end; [first [intros _; assumption | discriminate]|]).
  change ("unknown_r(0x" +:+ format_02x f +:+ ")")
    with (String "u" ("nknown_r(0x" +:+ format_02x f +:+ ")")).
  discriminate.
Qed.

Lemma I_mnemonic_lw op :
  table_get I_OPCODES op ("unknown_i(0x" ++ format_02x op ++ ")") = "lw" ->
  op = 0x23.
Proof.
  unfold table_get, I_OPCODES. cbn.
  repeat (match goal with
          | |- context [?a =? ?b] => destruct (Z.eqb_spec a b)
          end; [first [intros _; assumption | discriminate]|]).
  change ("unknown_i(0x" +:+ format_02x op +:+ ")")
    with (String "u" ("nknown_i(0x" +:+ format_02x op +:+ ")")).
  discriminate.
Qed.

(** Cases of [exec] that the opcode or function code at hand rules out. *)
Ltac exec_absurd :=
  match goal with
  | H1 : f_opcode ?w = ?a, H2 : f_opcode ?w = ?b |- _ =>
      exfalso; rewrite H1 in H2; discriminate H2
  | H1 : f_funct ?w = ?a, H2 : f_funct ?w = ?b |- _ =>
      exfalso; rewrite H1 in H2; discriminate H2
  | H1 : f_opcode ?w = _, H2 : f_opcode ?w <> _ |- _ =>
      exfalso; rewrite H1 in H2; apply H2; reflexivity
  | H1 : f_funct ?w = _, H2 : table_lookup R_FUNCTS (f_funct ?w) = None |- _ =>
      exfalso; rewrite H1 in H2; discriminate H2
  | H1 : f_opcode ?w = _, H2 : table_lookup _ (f_opcode ?w) = None |- _ =>
      exfalso; rewrite H1 in H2; discriminate H2
  end.

Ltac exec_inversion He := inversion He; subst; try exec_absurd.

Lemma exec_add_inv s w rg m p ma :
  f_opcode w = 0 -> f_funct w = 0x20 -> exec s w rg m p ma ->
  rg = <[Z.to_nat (f_rd w) := mask32 (reg s (f_rs w) + reg s (f_rt w))]> (regs s).
Proof. intros Ho Hf He. exec_inversion He. reflexivity. Qed.

Lemma exec_unknown_r_inv s w rg m p ma :
  f_opcode w = 0 -> table_lookup R_FUNCTS (f_funct w) = None ->
  exec s w rg m p ma ->
  rg = regs s /\ m = mem s /\ p = pc s + 4 /\ ma = None.
Proof.
  intros Ho Hf He.
  inversion He; subst; try exec_absurd;
    try (match goal with
         | H : f_funct w = _ |- _ => rewrite H in Hf; discriminate Hf
         end).
  repeat split.
Qed.

Lemma exec_j_inv s w rg m p ma :
  f_opcode w = 0x02 -> exec s w rg m p ma ->
  rg = regs s /\ m = mem s /\ p = jump_target (pc s) (f_address w) /\ ma = None.
Proof. intros Ho He. exec_inversion He. repeat split. Qed.

Lemma exec_straight_line s w rg m p ma :
  straight_line w -> exec s w rg m p ma -> p = pc s + 4.
Proof.
  intros (H2 & H4 & H5) He.
  inversion He; subst; try reflexivity; exfalso; auto.
Qed.

Lemma exec_read_absent s w rg m p a v :
  exec s w rg m p (Some (mkMemAccess "read" a v)) ->
  mem s !! a = None -> v = 0.
Proof.
  intros He Ha. inversion He; subst.
  match goal with H : mem s !! _ = None |- _ => rewrite H end. reflexivity.
Qed.

Lemma getitem_reg s i v :
  wf s -> 0 <= i < 32 -> list_getitem (regs s) i = Ret v -> reg s i = v.
Proof.
  intros Hwf Hi Hg. rewrite list_getitem_in_range in Hg.
  - injection Hg as <-. reflexivity.
  - rewrite Hwf. lia.
Qed.

Lemma field_bounds w :
  0 <= f_rs w < 32 /\ 0 <= f_rt w < 32 /\ 0 <= f_rd w < 32 /\
  0 <= f_shamt w < 32.
Proof. repeat split; apply land_31. Qed.

(** ** The claims about a single step *)

(** C6. When the halted flag is set, [step] returns the result whose only
    key is the status ["halted"] and leaves the machine exactly as it was
    (registers, memory, program counter, step counter, instruction memory
    and the flag itself), so any number of further calls does the same. *)
Theorem step_halted_is_noop (s : SimpleMIPS) :
  halted s = true ->
  step s = Ret (mkStepResult (Some "halted") None None None None None None, s)
  /\ forall k, iter_step k s = Ret (repeat halted_result k, s).
Proof.
  intros Hh. split.
  - apply step_halted. exact Hh.
  - induction k as [|k IH]; cbn [iter_step repeat].
    + reflexivity.
    + rewrite (step_halted s Hh). cbn. rewrite IH. reflexivity.
Qed.

Lemma step_halted_is_noop_witness :
  let s := set_halted (init [] DEFAULT_BASE_PC) true in
  step s = Ret (mkStepResult (Some "halted") None None None None None None, s)
  /\ forall k, iter_step k s = Ret (repeat halted_result k, s).
Proof.
  intros s. apply (step_halted_is_noop s). reflexivity.
Defined.

(** C4. From every reachable state a call of [step] returns, and register 0
    reads as 0 afterwards, whatever the executed instruction wrote. *)
Theorem register_zero_after_step (s : SimpleMIPS) :
  reachable s ->
  exists r s', step s = Ret (r, s') /\ list_getitem (regs s') 0 = Ret 0.
Proof.
  intros Hr. pose proof (reachable_inv s Hr) as Hi.
  destruct (step_cases s (inv_wf s Hi)) as (r & s' & Hs & Hc).
  exists r, s'. split; [exact Hs|].
  pose proof (step_case_inv s r s' Hi Hc) as [Hl _ Hz _].
  rewrite list_getitem_in_range by (rewrite Hl; lia).
  f_equal. apply nth_lookup_Some with (d := 0) in Hz. exact Hz.
Qed.

(** A program that writes to register 0: [addi $0, $0, 5]. *)
Lemma register_zero_after_step_witness :
  exists r s',
    step (init [0x20000005] DEFAULT_BASE_PC) = Ret (r, s') /\
    list_getitem (regs s') 0 = Ret 0.
Proof.
  apply (register_zero_after_step (init [0x20000005] DEFAULT_BASE_PC)).
  apply reach_init.
Defined.

Lemma nth_insert_zero (l : list Z) (k : nat) :
  nth k (<[0%nat := 0]> (<[k := 0]> l)) 0 = 0.
Proof.
  destruct (nth_in_or_default k (<[0%nat := 0]> (<[k := 0]> l)) 0)
    as [Hin | Hd]; [|exact Hd].
  destruct (Nat.lt_ge_cases k (length l)) as [Hk | Hk].
  - apply nth_lookup_Some with (i := k).
    + destruct k as [|k].
      * apply list_lookup_insert_eq. rewrite length_insert. exact Hk.
      * rewrite list_lookup_insert_ne by discriminate.
        apply list_lookup_insert_eq. exact Hk.
  - apply nth_overflow. rewrite !length_insert. exact Hk.
Qed.

Lemma getitem_after_write (l : list Z) (k v : Z) :
  length l = 32%nat -> 0 <= k < 32 ->
  list_getitem (<[0%nat := 0]> (<[Z.to_nat k := v]> l)) k
  = Ret (if k =? 0 then 0 else v).
Proof.
  intros Hl Hk.
  rewrite list_getitem_in_range by (rewrite !length_insert, Hl; lia).
  f_equal. apply nth_lookup_Some with (i := Z.to_nat k).
  destruct (Z.eqb_spec k 0) as [-> | Hne].
  - apply list_lookup_insert_eq. rewrite length_insert. lia.
  - rewrite list_lookup_insert_ne by lia.
    apply list_lookup_insert_eq. lia.
Qed.

Lemma getitem_other_after_write (l : list Z) (k i v : Z) :
  length l = 32%nat -> 0 <= k < 32 -> 0 < i < 32 -> i <> k ->
  list_getitem (<[0%nat := 0]> (<[Z.to_nat k := v]> l)) i = list_getitem l i.
Proof.
  intros Hl Hk Hi Hne.
  rewrite !list_getitem_in_range by (rewrite ?length_insert, Hl; lia).
  f_equal.
  assert (Hlk : <[0%nat := 0]> (<[Z.to_nat k := v]> l) !! Z.to_nat i
                = l !! Z.to_nat i).
  { rewrite list_lookup_insert_ne by lia.
    apply list_lookup_insert_ne. lia. }
  rewrite (lookup_nth l (Z.to_nat i)) in Hlk by lia.
  apply nth_lookup_Some with (d := 0) in Hlk. exact Hlk.
Qed.

(** C5. After a step from a reachable state all 32 registers and all stored
    memory words lie in [0, 2^32).  And on any machine with 32 registers, a
    register-format [add] whose source registers hold [a] and [b] is an
    ["ok"] step that advances the program counter by 4, leaves memory alone
    and writes (a + b) mod 2^32 to its destination register (register 0
    stays 0) and nothing to the other registers from 1 up; with 0xFFFFFFFF
    and 1 the value written is 0. *)
Theorem values_stay_in_32_bits :
  (forall s, reachable s ->
     exists r s', step s = Ret (r, s') /\
       length (regs s') = 32%nat /\
       Forall in32 (regs s') /\
       map_Forall (fun _ v => in32 v) (mem s')) /\
  (forall s w d rs rt rd a b,
     length (regs s) = 32%nat ->
     halted s = false ->
     fetch_instr_at_pc s (pc s) = Ret (Some w) ->
     decode w = Ret d ->
     d_type d = "R" -> d_mnemonic d = "add" ->
     d_rs d = Some rs -> d_rt d = Some rt -> d_rd d = Some rd ->
     list_getitem (regs s) rs = Ret a ->
     list_getitem (regs s) rt = Ret b ->
     exists r s', step s = Ret (r, s') /\
       r_status r = Some "ok" /\
       pc s' = pc s + 4 /\ mem s' = mem s /\
       list_getitem (regs s') rd
         = Ret (if rd =? 0 then 0 else (a + b) mod 2 ^ 32) /\
       (forall i, 0 < i < 32 -> i <> rd ->
          list_getitem (regs s') i = list_getitem (regs s) i) /\
       (a = 0xFFFFFFFF -> b = 1 ->
          list_getitem (regs s') rd = Ret 0x00000000)).
Proof.
  split.
  - intros s Hr. pose proof (reachable_inv s Hr) as Hi.
    destruct (step_cases s (inv_wf s Hi)) as (r & s' & Hs & Hc).
    exists r, s'. split; [exact Hs|].
    pose proof (step_case_inv s r s' Hi Hc) as [Hl Hrg Hz Hm].
    repeat (split; [assumption|]). assumption.
  - intros s w d rs rt rd a b Hwf Hh Hf Hd Ht Hmn Hrs Hrt Hrd Ha Hb.
    destruct (decode_type_R w d Hd Ht) as (Hop & _ & Hrd' & Hrs' & Hrt').
    rewrite Hrs in Hrs'. rewrite Hrt in Hrt'. rewrite Hrd in Hrd'.
    injection Hrs' as ->. injection Hrt' as ->. injection Hrd' as ->.
    destruct (field_bounds w) as (Brs & Brt & Brd & _).
    assert (Hfun : f_funct w = 0x20).
    { destruct (decode_shape w) as (d' & Hd' & _ & Hsh).
      rewrite Hd in Hd'. injection Hd' as <-.
      destruct Hsh as [Hsh | [Hsh | Hsh]].
      - apply R_mnemonic_add. rewrite <- Hmn. symmetry. apply Hsh.
      - destruct Hsh as (_ & Ht' & _). rewrite Ht' in Ht. discriminate Ht.
      - destruct Hsh as (_ & _ & Ht' & _). rewrite Ht' in Ht. discriminate Ht. }
    apply (getitem_reg s _ _ Hwf Brs) in Ha.
    apply (getitem_reg s _ _ Hwf Brt) in Hb.
    destruct (step_running s w Hwf Hh Hf)
      as (d' & rg & m & p & ma & _ & He & Hs).
    pose proof (exec_add_inv s w rg m p ma Hop Hfun He) as Hrg.
    assert (Hrest : m = mem s /\ p = pc s + 4)
      by (inversion He; subst; try exec_absurd; split; reflexivity).
    destruct Hrest as [-> ->]. subst rg. rewrite Ha, Hb in Hs.
    eexists _, _. split; [exact Hs|].
    cbn [ok_result ok_state r_status pc mem regs].
    assert (Hmod : mask32 (a + b) = (a + b) mod 2 ^ 32).
    { unfold mask32. change 0xFFFFFFFF with (Z.ones 32).
      apply Z.land_ones. lia. }
    split; [reflexivity|]. split; [reflexivity|]. split; [reflexivity|].
    split; [rewrite <- Hmod; apply getitem_after_write; assumption|].
    split.
    + intros i Hi Hne. apply getitem_other_after_write; assumption.
    + intros -> ->. rewrite (getitem_after_write _ _ _ Hwf Brd).
      destruct (f_rd w =? 0); reflexivity.
Qed.

(** [addi $1,$0,-1; addi $2,$0,1; add $3,$1,$2]: the first two steps put
    0xFFFFFFFF and 1 into registers 1 and 2, the third adds them. *)
Lemma values_stay_in_32_bits_witness :
  let s0 := init [0x2001FFFF; 0x20020001; 0x00221820] DEFAULT_BASE_PC in
  exists r1 s1 r2 s2 r3 s3,
    step s0 = Ret (r1, s1) /\ step s1 = Ret (r2, s2) /\
    step s2 = Ret (r3, s3) /\
    reachable s2 /\
    fetch_instr_at_pc s2 (pc s2) = Ret (Some 0x00221820) /\
    list_getitem (regs s2) 1 = Ret 0xFFFFFFFF /\
    list_getitem (regs s2) 2 = Ret 1 /\
    r_status r3 = Some "ok" /\
    list_getitem (regs s3) 3 = Ret 0 /\
    Forall in32 (regs s3).
Proof.
  intros s0.
  destruct (step s0) as [[r1 s1]|e] eqn:E1; [|discriminate E1].
  destruct (step s1) as [[r2 s2]|e] eqn:E2;
    [|vm_compute in E1; injection E1 as <- <-; discriminate E2].
  assert (Hr : reachable s2).
  { eapply reach_step; [|exact E2]. eapply reach_step; [|exact E1].
    apply reach_init. }
  destruct values_stay_in_32_bits as [Hrange Hadd].
  destruct (Hrange s2 Hr) as (r3 & s3 & Hs3 & _ & Hrg & _).
  exists r1, s1, r2, s2, r3, s3.
  split; [reflexivity|]. split; [exact E2|]. split; [exact Hs3|].
  split; [exact Hr|].
  vm_compute in E1. injection E1 as <- <-.
  vm_compute in E2. injection E2 as <- <-.
  destruct (decode 0x00221820) as [d|e] eqn:Hd; [|discriminate Hd].
  match type of Hs3 with step ?st = _ => set (s2 := st) in * end.
  destruct (Hadd s2 0x00221820 d 1 2 3 0xFFFFFFFF 1)
    as (r & s' & Hs & Hok & _ & _ & _ & _ & Hzero);
    try exact Hd;
    try (vm_compute in Hd; injection Hd as <-; reflexivity);
    try reflexivity.
  rewrite Hs3 in Hs. injection Hs as <- <-.
  split; [reflexivity|]. split; [reflexivity|]. split; [reflexivity|].
  split; [exact Hok|]. split; [apply Hzero; reflexivity | exact Hrg].
Defined.

Lemma step_case_status s r s' :
  step_case s r s' ->
  r_status r = Some "halted" \/ r_status r = Some "pc_out_of_range"
  \/ r_status r = Some "ok".
Proof. intros []; cbn; auto. Qed.

(** C8. From a reachable state [step] never raises, whatever the
    instruction words are: it returns a result that carries a status; the
    register fields the decoder produces are within 0..31 and every such
    index can be read and written in the register file; and a reported
    memory read of an address that is absent from memory reports 0. *)
Theorem step_never_raises (s : SimpleMIPS) :
  reachable s ->
  (exists r s' st,
     step s = Ret (r, s') /\ r_status r = Some st /\
     (forall a v, r_mem_access r = Some (mkMemAccess "read" a v) ->
                  mem s !! a = None -> v = 0)) /\
  (forall w, exists d,
     decode w = Ret d /\
     forall i, d_rs d = Some i \/ d_rt d = Some i \/ d_rd d = Some i ->
               0 <= i <= 31) /\
  (forall i v, 0 <= i <= 31 ->
     (exists x, list_getitem (regs s) i = Ret x) /\
     (exists l, list_setitem (regs s) i v = Ret l)).
Proof.
  intros Hr. pose proof (reachable_wf s Hr) as Hwf.
  split; [|split].
  - destruct (step_cases s Hwf) as (r & s' & Hs & Hc).
    destruct (step_case_status s r s' Hc) as [H | [H | H]];
      eexists r, s', _; (split; [exact Hs|]); (split; [exact H|]);
      intros a v Hma Hnone;
      destruct Hc as [Hh | Hh Hf | w d rg m p ma Hh Hf Hd He];
      cbn in Hma; try discriminate Hma;
      subst ma; eapply exec_read_absent; eassumption.
  - intros w. destruct (decode_shape w) as (d & Hd & _ & Hsh).
    exists d. split; [exact Hd|]. intros i Hi.
    destruct (field_bounds w) as (Brs & Brt & Brd & _).
    destruct Hsh as [Hsh | [Hsh | Hsh]].
    + destruct Hsh as (_ & _ & Hrs & Hrt & Hrd & _).
      rewrite Hrs, Hrt, Hrd in Hi.
      destruct Hi as [Hi | [Hi | Hi]]; injection Hi as <-; lia.
    + destruct Hsh as (_ & _ & _ & Hrs & Hrt & Hrd & _).
      rewrite Hrs, Hrt, Hrd in Hi.
      destruct Hi as [Hi | [Hi | Hi]]; discriminate Hi.
    + destruct Hsh as (_ & _ & _ & Hrs & Hrt & Hrd & _).
      rewrite Hrs, Hrt, Hrd in Hi.
      destruct Hi as [Hi | [Hi | Hi]];
        first [discriminate Hi | injection Hi as <-; lia].
  - intros i v Hi. split.
    + eexists. apply list_getitem_in_range. rewrite Hwf. lia.
    + eexists. apply list_setitem_in_range. rewrite Hwf. lia.
Qed.

(** [lw $4, 4($0)] on an empty memory. *)
Lemma step_never_raises_witness :
  exists r s',
    step (init [0x8C040004] DEFAULT_BASE_PC) = Ret (r, s') /\
    r_status r = Some "ok" /\
    r_mem_access r = Some (mkMemAccess "read" 4 0).
Proof.
  destruct (step_never_raises (init [0x8C040004] DEFAULT_BASE_PC)
              (reach_init _ _)) as ((r & s' & st & Hs & Hst & Hma) & _ & _).
  exists r, s'. split; [exact Hs|].
  vm_compute in Hs. injection Hs as <- <-. split; reflexivity.
Defined.

(** C9. A word that decodes to register format with a function code outside
    the table of recognised ones executes as a silent no-op: registers and
    memory unchanged, program counter advanced by 4, step counter
    incremented, status ["ok"]. *)
Theorem unknown_funct_is_noop (s : SimpleMIPS) (w : Z) (d : Decoded) (f : Z) :
  reachable s ->
  halted s = false ->
  fetch_instr_at_pc s (pc s) = Ret (Some w) ->
  decode w = Ret d ->
  d_type d = "R" ->
  d_funct d = Some f ->
  table_lookup R_FUNCTS f = None ->
  exists r s',
    step s = Ret (r, s') /\
    regs s' = regs s /\ mem s' = mem s /\
    pc s' = pc s + 4 /\ step_count s' = step_count s + 1 /\
    halted s' = false /\ r_status r = Some "ok".
Proof.
  intros Hr Hh Hf Hd Ht Hfun Hnone.
  pose proof (reachable_inv s Hr) as Hi.
  destruct (decode_type_R w d Hd Ht) as (Hop & Hfun' & _).
  rewrite Hfun in Hfun'. injection Hfun' as ->.
  destruct (step_running s w (inv_wf s Hi) Hh Hf)
    as (d' & rg & m & p & ma & _ & He & Hs).
  destruct (exec_unknown_r_inv s w rg m p ma Hop Hnone He)
    as (-> & -> & -> & ->).
  eexists _, _. split; [exact Hs|]. cbn.
  repeat split.
  apply list_insert_id. exact (inv_zero s Hi).
Qed.

(** The word 0x0000003F: opcode 0, function code 0x3F. *)
Lemma unknown_funct_is_noop_witness :
  let s := init [0x0000003F] DEFAULT_BASE_PC in
  exists r s',
    step s = Ret (r, s') /\
    regs s' = regs s /\ mem s' = mem s /\
    pc s' = pc s + 4 /\ step_count s' = step_count s + 1 /\
    halted s' = false /\ r_status r = Some "ok".
Proof.
  intros s.
  destruct (decode 0x0000003F) as [d|e] eqn:Hd; [|discriminate Hd].
  apply (unknown_funct_is_noop s 0x0000003F d 0x3F).
  - apply reach_init.
  - reflexivity.
  - reflexivity.
  - exact Hd.
  - vm_compute in Hd. injection Hd as <-. reflexivity.
  - vm_compute in Hd. injection Hd as <-. reflexivity.
  - reflexivity.
Defined.

(** C10. The decoder produces exactly the three formats, and the jump format
    only for an opcode of the jump table, with the mnemonic ["j"]; so a step
    from a reachable state ends with one of the statuses ["halted"],
    ["pc_out_of_range"], ["ok"], never with ["unknown_j"] or
    ["unknown_type"]. *)
Theorem unknown_statuses_unreachable :
  (forall w, exists d,
     decode w = Ret d /\
     (d_type d = "R" \/ d_type d = "I" \/ d_type d = "J") /\
     (d_type d = "J" ->
      table_contains J_OPCODES (d_opcode d) = true /\ d_mnemonic d = "j")) /\
  (forall s, reachable s ->
     exists r s', step s = Ret (r, s') /\
       (r_status r = Some "halted" \/ r_status r = Some "pc_out_of_range"
        \/ r_status r = Some "ok") /\
       r_status r <> Some "unknown_j" /\ r_status r <> Some "unknown_type").
Proof.
  split.
  - intros w. destruct (decode_shape w) as (d & Hd & Hop & Hsh).
    exists d. split; [exact Hd|]. split.
    + destruct Hsh as [Hsh | [Hsh | Hsh]]; tauto.
    + intros Ht. destruct (decode_type_J w d Hd Ht) as (Ho & Hm & _).
      rewrite Hop, Ho. split; [reflexivity | exact Hm].
  - intros s Hr.
    destruct (step_cases s (reachable_wf s Hr)) as (r & s' & Hs & Hc).
    exists r, s'. split; [exact Hs|].
    pose proof (step_case_status s r s' Hc) as H.
    split; [exact H|].
    destruct H as [H | [H | H]]; rewrite H; split; discriminate.
Qed.

Lemma unknown_statuses_unreachable_witness :
  exists r s', step (init [0x08000010] DEFAULT_BASE_PC) = Ret (r, s') /\
    r_status r <> Some "unknown_j" /\ r_status r <> Some "unknown_type".
Proof.
  destruct unknown_statuses_unreachable as [_ H].
  destruct (H (init [0x08000010] DEFAULT_BASE_PC) (reach_init _ _))
    as (r & s' & Hs & _ & Hj & Ht).
  exists r, s'. repeat split; assumption.
Defined.

(** ** The jump target *)

(** C1, as stated, fails: with the program counter at 0x00400000 and the
    address field 0x10, the jump goes to 0x00000040, not to 0x00400040 (the
    upper four bits of 0x00400000 are zero). *)
Lemma jump_example_counterexample :
  let s := init [0x08000010] 0x00400000 in
  pc s = 0x00400000 /\
  fetch_instr_at_pc s (pc s) = Ret (Some 0x08000010) /\
  (exists d, decode 0x08000010 = Ret d /\ d_type d = "J" /\
             d_mnemonic d = "j" /\ d_address d = Some 0x00000010) /\
  exists r s', step s = Ret (r, s') /\ r_status r = Some "ok" /\
               pc s' = 0x00000040 /\ pc s' <> 0x00400040.
Proof.
  cbv zeta. split; [reflexivity|]. split; [reflexivity|]. split.
  - eexists. split; [reflexivity|]. repeat split.
  - eexists _, _. split; [vm_compute; reflexivity|].
    split; [reflexivity|]. split; [reflexivity|]. discriminate.
Qed.

(** C1, amended. Executing a word that decodes to the jump format sets the
    program counter to (pc AND 0xF0000000) OR ((address << 2) AND
    0x0FFFFFFF); from the program counter 0x00400000 with the address field
    0x10 this is 0x00000040. *)
Theorem jump_sets_target (s : SimpleMIPS) (w : Z) (d : Decoded) (a : Z) :
  reachable s ->
  halted s = false ->
  fetch_instr_at_pc s (pc s) = Ret (Some w) ->
  decode w = Ret d ->
  d_type d = "J" ->
  d_address d = Some a ->
  exists r s',
    step s = Ret (r, s') /\ r_status r = Some "ok" /\
    d_mnemonic d = "j" /\
    pc s' = Z.lor (Z.land (pc s) 0xF0000000)
                  (Z.land (Z.shiftl a 2) 0x0FFFFFFF) /\
    (pc s = 0x00400000 -> a = 0x00000010 -> pc s' = 0x00000040).
Proof.
  intros Hr Hh Hf Hd Ht Ha.
  destruct (decode_type_J w d Hd Ht) as (Hop & Hm & Ha').
  rewrite Ha in Ha'. injection Ha' as ->.
  destruct (step_running s w (reachable_wf s Hr) Hh Hf)
    as (d' & rg & m & p & ma & _ & He & Hs).
  destruct (exec_j_inv s w rg m p ma Hop He) as (-> & -> & -> & ->).
  eexists _, _. split; [exact Hs|]. cbn.
  split; [reflexivity|]. split; [exact Hm|]. split; [reflexivity|].
  intros Hpc Hx. unfold jump_target. rewrite Hpc, Hx. reflexivity.
Qed.

Lemma jump_sets_target_witness :
  exists r s',
    step (init [0x08000010] 0x00400000) = Ret (r, s') /\
    pc s' = 0x00000040.
Proof.
  destruct (decode 0x08000010) as [d|e] eqn:Hd; [|discriminate Hd].
  destruct (jump_sets_target (init [0x08000010] 0x00400000) 0x08000010 d 0x10)
    as (r & s' & Hs & _ & _ & _ & Hex).
  - apply reach_init.
  - reflexivity.
  - reflexivity.
  - exact Hd.
  - vm_compute in Hd. injection Hd as <-. reflexivity.
  - vm_compute in Hd. injection Hd as <-. reflexivity.
  - exists r, s'. split; [exact Hs|]. apply Hex; reflexivity.
Defined.

(** ** Bounded runs *)

Lemma run_loop_halted k s acc :
  halted s = true -> run_loop k s acc = Ret (acc, s).
Proof. intros Hh. destruct k; cbn; [|rewrite Hh]; reflexivity. Qed.

Lemma run_loop_step k s acc r s1 :
  halted s = false -> step s = Ret (r, s1) ->
  run_loop (S k) s acc = run_loop k s1 (acc ++ [r])%list.
Proof. intros Hh Hs. cbn. rewrite Hh, Hs. reflexivity. Qed.

Lemma iter_step_S k s r s1 l s2 :
  step s = Ret (r, s1) -> iter_step k s1 = Ret (l, s2) ->
  iter_step (S k) s = Ret (r :: l, s2).
Proof. intros Hs Hi. cbn. rewrite Hs. cbn. rewrite Hi. reflexivity. Qed.

(** [run_loop] performs the first [j] steps, for the least [j] at which the
    budget is used up or the machine is found halted. *)
Lemma run_loop_iter k :
  forall s acc, inv s ->
  exists j l s',
    (j <= k)%nat /\
    run_loop k s acc = Ret ((acc ++ l)%list, s') /\
    iter_step j s = Ret (l, s') /\
    length l = j /\
    ((j < k)%nat -> halted s' = true) /\
    (forall i, (i < j)%nat ->
       exists li si, iter_step i s = Ret (li, si) /\ halted si = false).
Proof.
  induction k as [|k IH]; intros s acc Hi.
  - exists 0%nat, [], s. cbn. rewrite app_nil_r.
    split; [lia|]. split; [reflexivity|]. split; [reflexivity|].
    split; [reflexivity|]. split; intros; lia.
  - destruct (halted s) eqn:Hh.
    + exists 0%nat, [], s. rewrite (run_loop_halted _ s acc Hh), app_nil_r.
      split; [lia|]. split; [reflexivity|]. split; [reflexivity|].
      split; [reflexivity|]. split; [intros _; exact Hh|].
      intros i Hlt. lia.
    + destruct (step_cases s (inv_wf s Hi)) as (r & s1 & Hs & Hc).
      pose proof (step_case_inv s r s1 Hi Hc) as Hi1.
      destruct (IH s1 (acc ++ [r])%list Hi1)
        as (j & l & s' & Hj & Hrun & Hit & Hlen & Hstop & Hlive).
      exists (S j), (r :: l), s'.
      split; [lia|]. split.
      { rewrite (run_loop_step k s acc r s1 Hh Hs), Hrun.
        rewrite <- app_assoc. reflexivity. }
      split; [exact (iter_step_S j s r s1 l s' Hs Hit)|].
      split; [cbn; rewrite Hlen; reflexivity|].
      split; [intros Hlt; apply Hstop; lia|].
      intros [|i] Hlt.
      * exists [], s. split; [reflexivity | exact Hh].
      * destruct (Hlive i) as (li & si & Hli & Hsi); [lia|].
        exists (r :: li), si. split; [|exact Hsi].
        exact (iter_step_S i s r s1 li si Hs Hli).
Qed.

(** C7. For [n >= 0], [run_n] returns at most [n] results: exactly the
    results, in order, of the [j] steps it performed, where no machine was
    found halted before any of these steps and, if [j < n], the machine is
    halted after them -- so the step that set the flag is the last entry, and
    no step follows it. *)
Theorem run_n_collects_steps (s : SimpleMIPS) (n : Z) :
  0 <= n ->
  reachable s ->
  exists (j : nat) l s',
    run_n s n = Ret (l, s') /\
    Z.of_nat (length l) <= n /\
    length l = j /\
    iter_step j s = Ret (l, s') /\
    (Z.of_nat j < n -> halted s' = true) /\
    (forall i, (i < j)%nat ->
       exists li si, iter_step i s = Ret (li, si) /\ halted si = false).
Proof.
  intros Hn Hr. unfold run_n.
  destruct (run_loop_iter (Z.to_nat n) s [] (reachable_inv s Hr))
    as (j & l & s' & Hj & Hrun & Hit & Hlen & Hstop & Hlive).
  exists j, l, s'. cbn in Hrun.
  split; [exact Hrun|]. split; [lia|]. split; [exact Hlen|].
  split; [exact Hit|]. split; [intros Hlt; apply Hstop; lia | exact Hlive].
Qed.

(** A one-word program run with a budget of 10: one ["ok"] step, then the
    step that sets the flag. *)
Lemma run_n_collects_steps_witness :
  exists l s',
    run_n (init [0x20020001] DEFAULT_BASE_PC) 10 = Ret (l, s') /\
    map r_status l = [Some "ok"; Some "pc_out_of_range"] /\
    halted s' = true.
Proof.
  destruct (run_n_collects_steps (init [0x20020001] DEFAULT_BASE_PC) 10)
    as (j & l & s' & Hrun & _ & _ & _ & _ & _).
  - lia.
  - apply reach_init.
  - exists l, s'. split; [exact Hrun|].
    vm_compute in Hrun. injection Hrun as <- <-. split; reflexivity.
Defined.

(** ** Straight-line programs run to their end *)

(** C3, as stated, fails: a one-word program that branches to itself
    ([beq $0,$0,-1]) run with a budget of 1 + 5 gives six ["ok"] results and
    never leaves the instruction memory. *)
Lemma run_past_end_counterexample :
  let ws := [0x1000FFFF] in
  exists l s',
    run_n (init ws DEFAULT_BASE_PC) (Z.of_nat (length ws) + 5) = Ret (l, s') /\
    map r_status l = repeat (Some "ok") 6 /\
    map r_status l <>
      (repeat (Some "ok") (length ws) ++ [Some "pc_out_of_range"])%list.
Proof.
  cbv zeta. eexists _, _. split; [vm_compute; reflexivity|].
  split; [reflexivity | discriminate].
Qed.

Lemma fetch_index s (k : nat) :
  pc s = base s + 4 * Z.of_nat k -> (pc s - base s) / 4 = Z.of_nat k.
Proof.
  intros Hpc. replace (pc s - base s) with (Z.of_nat k * 4) by lia.
  apply Z.div_mul. lia.
Qed.

Lemma fetch_inside s (k : nat) :
  pc s = base s + 4 * Z.of_nat k -> (k < length (instrs s))%nat ->
  exists w, fetch_instr_at_pc s (pc s) = Ret (Some w) /\ instrs s !! k = Some w.
Proof.
  intros Hpc Hk. pose proof (fetch_index s k Hpc) as Hidx.
  destruct (fetch_cases s (pc s)) as [[_ Hout] | (w & Hf & _ & Hw)].
  - rewrite Hidx in Hout. lia.
  - exists w. split; [exact Hf|]. rewrite Hidx, Nat2Z.id in Hw. exact Hw.
Qed.

Lemma fetch_at_end s :
  pc s = base s + 4 * Z.of_nat (length (instrs s)) ->
  fetch_instr_at_pc s (pc s) = Ret None.
Proof.
  intros Hpc. pose proof (fetch_index s _ Hpc) as Hidx.
  destruct (fetch_cases s (pc s)) as [[Hf _] | (w & _ & Hin & _)].
  - exact Hf.
  - rewrite Hidx in Hin. lia.
Qed.

Lemma run_straight_line (m : nat) :
  forall s acc (n k : nat),
    inv s -> halted s = false ->
    Forall straight_line (instrs s) ->
    (k + m = length (instrs s))%nat ->
    pc s = base s + 4 * Z.of_nat k ->
    (m < n)%nat ->
    exists l s',
      run_loop n s acc = Ret ((acc ++ l)%list, s') /\
      map r_status l =
        (repeat (Some "ok") m ++ [Some "pc_out_of_range"])%list /\
      halted s' = true.
Proof.
  induction m as [|m IH]; intros s acc n k Hi Hh Hsl Hkm Hpc Hn;
    destruct n as [|n]; try lia.
  - assert (Hf : fetch_instr_at_pc s (pc s) = Ret None).
    { apply fetch_at_end. rewrite Hpc. f_equal. f_equal. lia. }
    rewrite (run_loop_step n s acc _ _ Hh (step_out_of_range s Hh Hf)).
    rewrite run_loop_halted by reflexivity.
    eexists _, _. split; [reflexivity|]. split; reflexivity.
  - destruct (fetch_inside s k Hpc) as (w & Hf & Hw); [lia|].
    assert (Hsw : straight_line w).
    { rewrite Forall_forall in Hsl. apply Hsl.
      apply list_elem_of_lookup. exists k. exact Hw. }
    destruct (step_running s w (inv_wf s Hi) Hh Hf)
      as (d & rg & mm & p & ma & Hd & He & Hs).
    pose proof (exec_straight_line s w rg mm p ma Hsw He) as ->.
    assert (Hc : step_case s (ok_result s w d ma (<[0%nat := 0]> rg))
                   (ok_state s rg mm (pc s + 4)))
      by (eapply sc_ok; eassumption).
    pose proof (step_case_inv _ _ _ Hi Hc) as Hi1.
    rewrite (run_loop_step n s acc _ _ Hh Hs).
    destruct (IH (ok_state s rg mm (pc s + 4))
                 (acc ++ [ok_result s w d ma (<[0%nat := 0]> rg)])%list
                 n (S k) Hi1)
      as (l & s' & Hrun & Hst & Hhalt).
    + reflexivity.
    + exact Hsl.
    + cbn. lia.
    + cbn. lia.
    + lia.
    + exists (ok_result s w d ma (<[0%nat := 0]> rg) :: l), s'.
      split; [|split].
      * rewrite Hrun, <- app_assoc. reflexivity.
      * cbn. rewrite Hst. reflexivity.
      * exact Hhalt.
Qed.

(** C3, amended. For every list of [L] instruction words none of which is a
    jump or a branch (opcode other than 2, 4 and 5) and every base address,
    [run_n(L + 5)] on the fresh machine returns exactly [L] results with
    status ["ok"] followed by one with status ["pc_out_of_range"]. *)
Theorem straight_line_run_ends (ws : list Z) (b : Z) :
  Forall straight_line ws ->
  exists l s',
    run_n (init ws b) (Z.of_nat (length ws) + 5) = Ret (l, s') /\
    map r_status l =
      (repeat (Some "ok") (length ws) ++ [Some "pc_out_of_range"])%list /\
    halted s' = true.
Proof.
  intros Hsl. unfold run_n.
  destruct (run_straight_line (length ws) (init ws b) []
              (Z.to_nat (Z.of_nat (length ws) + 5)) 0 (inv_init ws b))
    as (l & s' & Hrun & Hst & Hhalt).
  - reflexivity.
  - exact Hsl.
  - reflexivity.
  - cbn. lia.
  - lia.
  - exists l, s'. cbn in Hrun. split; [exact Hrun|]. split; assumption.
Qed.

(** [addi $1,$0,-1; addi $2,$0,1; add $3,$1,$2] *)
Lemma straight_line_run_ends_witness :
  exists l s',
    run_n (init [0x2001FFFF; 0x20020001; 0x00221820] DEFAULT_BASE_PC) 8
      = Ret (l, s') /\
    map r_status l =
      [Some "ok"; Some "ok"; Some "ok"; Some "pc_out_of_range"] /\
    halted s' = true.
Proof.
  apply (straight_line_run_ends [0x2001FFFF; 0x20020001; 0x00221820]
           DEFAULT_BASE_PC).
  repeat constructor; vm_compute; discriminate.
Defined.

(** ** The word parser *)


Lemma lstrip_blank s : blank s = true -> lstrip s = "".
Proof.
  induction s as [|c s IH]; cbn; [reflexivity|].
  intros H. apply andb_true_iff in H as [Hc Hs]. rewrite Hc. apply IH, Hs.
Qed.

Lemma parse_word_unfold s :
  parse_word s =
    if truthy (strip s) then
      match int (strip s) (word_base (strip s)) with
      | Ret v => Ret (Some v)
      | Raise _ => Ret None
      end
    else Ret None.
Proof.
  unfold parse_word, word_base.
  destruct (truthy (strip s)); cbn [negb]; [|reflexivity].
  destruct (startswith (strip s) "0x" || startswith (strip s) "0X").
  - destruct (int (strip s) 16); reflexivity.
  - destruct (all_in_01 (strip s) && (len (strip s) =? 32)).
    + destruct (int (strip s) 2); reflexivity.
    + destruct (int (strip s) 16); reflexivity.
Qed.









(** * Further properties of the code *)

(** ** Bit fields as arithmetic *)

Lemma field_arith w k m :
  0 <= k -> 0 <= m ->
  Z.land (Z.shiftr w k) (Z.ones m) = (w / 2 ^ k) mod 2 ^ m.
Proof.
  intros Hk Hm. rewrite Z.land_ones by assumption.
  rewrite Z.shiftr_div_pow2 by assumption. reflexivity.
Qed.

Lemma land_pow2 x n :
  0 <= n -> Z.land x (2 ^ n) = if Z.testbit x n then 2 ^ n else 0.
Proof.
  intros Hn. apply Z.bits_inj'. intros i Hi.
  rewrite Z.land_spec, Z.pow2_bits_eqb by assumption.
  destruct (Z.eqb_spec n i) as [<- | Hne].
  - destruct (Z.testbit x n); cbn.
    + rewrite Z.pow2_bits_true by assumption. reflexivity.
    + rewrite Z.bits_0. reflexivity.
  - rewrite andb_false_r. destruct (Z.testbit x n).
    + rewrite Z.pow2_bits_false by assumption. reflexivity.
    + rewrite Z.bits_0. reflexivity.
Qed.

Lemma sign_bit_test x :
  0 <= x < 2 ^ 16 -> (Z.land x 0x8000 =? 0) = (x <? 2 ^ 15).
Proof.
  intros Hx. change 0x8000 with (2 ^ 15). rewrite land_pow2 by lia.
  destruct (Z.testbit x 15) eqn:Hb.
  - apply Z.testbit_true in Hb; [|lia].
    assert (2 ^ 15 <= x).
    { destruct (Z.lt_ge_cases x (2 ^ 15)) as [Hlt|]; [|assumption].
      rewrite Z.div_small in Hb by lia. discriminate Hb. }
    symmetry. rewrite (proj2 (Z.ltb_ge _ _)) by assumption. reflexivity.
  - assert (x < 2 ^ 15).
    { destruct (Z.lt_ge_cases x (2 ^ 15)) as [|Hge]; [assumption|].
      assert (Hq : x / 2 ^ 15 = 1).
      { symmetry. apply (Z.div_unique x (2 ^ 15) 1 (x - 2 ^ 15)); lia. }
      assert (Ht : Z.testbit x 15 = true)
        by (apply Z.testbit_true; [lia | rewrite Hq; reflexivity]).
      rewrite Ht in Hb. discriminate Hb. }
    rewrite (proj2 (Z.ltb_lt _ _)) by assumption. reflexivity.
Qed.

Lemma f_imm_arith w :
  f_imm w = if w mod 2 ^ 16 <? 2 ^ 15 then w mod 2 ^ 16
            else w mod 2 ^ 16 - 2 ^ 16.
Proof.
  unfold f_imm. change 0xFFFF with (Z.ones 16).
  rewrite Z.land_ones by lia. cbv zeta.
  rewrite sign_bit_test by (apply Z.mod_pos_bound; lia).
  destruct (w mod 2 ^ 16 <? 2 ^ 15); reflexivity.
Qed.

Lemma f_opcode_arith w : f_opcode w = (w / 2 ^ 26) mod 2 ^ 6.
Proof. apply (field_arith w 26 6); lia. Qed.
Lemma f_rs_arith w : f_rs w = (w / 2 ^ 21) mod 2 ^ 5.
Proof. apply (field_arith w 21 5); lia. Qed.
Lemma f_rt_arith w : f_rt w = (w / 2 ^ 16) mod 2 ^ 5.
Proof. apply (field_arith w 16 5); lia. Qed.
Lemma f_rd_arith w : f_rd w = (w / 2 ^ 11) mod 2 ^ 5.
Proof. apply (field_arith w 11 5); lia. Qed.
Lemma f_shamt_arith w : f_shamt w = (w / 2 ^ 6) mod 2 ^ 5.
Proof. apply (field_arith w 6 5); lia. Qed.
Lemma f_funct_arith w : f_funct w = w mod 2 ^ 6.
Proof.
  unfold f_funct. change 0x3F with (Z.ones 6). apply Z.land_ones. lia.
Qed.
Lemma f_address_arith w : f_address w = w mod 2 ^ 26.
Proof.
  unfold f_address. change 0x03FFFFFF with (Z.ones 26). apply Z.land_ones. lia.
Qed.

(** [decode] in terms of the fields. *)
Lemma decode_fields w :
  decode w =
    if f_opcode w =? 0 then
      Ret (mkDecoded "R" (f_opcode w)
             (table_get R_FUNCTS (f_funct w)
                ("unknown_r(0x" ++ format_02x (f_funct w) ++ ")"))
             (Some (f_rs w)) (Some (f_rt w)) (Some (f_rd w))
             (Some (f_shamt w)) (Some (f_funct w)) None None)
    else if f_opcode w =? 0x02 then
      Ret (mkDecoded "J" (f_opcode w) "j" None None None None None None
             (Some (f_address w)))
    else
      Ret (mkDecoded "I" (f_opcode w)
             (table_get I_OPCODES (f_opcode w)
                ("unknown_i(0x" ++ format_02x (f_opcode w) ++ ")"))
             (Some (f_rs w)) (Some (f_rt w)) None None None
             (Some (f_imm w)) None).
Proof.
  unfold decode. fold (f_opcode w).
  destruct (Z.eqb_spec (f_opcode w) 0) as [H0|H0]; [reflexivity|].
  unfold table_contains, J_OPCODES. cbn [table_lookup].
  destruct (Z.eqb_spec (f_opcode w) 2) as [H2|H2]; reflexivity.
Qed.

Ltac field_solve :=
  rewrite ?f_opcode_arith, ?f_rs_arith, ?f_rt_arith, ?f_rd_arith,
    ?f_shamt_arith, ?f_funct_arith, ?f_address_arith;
  change (2 ^ 26) with 67108864 in *; change (2 ^ 21) with 2097152 in *;
  change (2 ^ 16) with 65536 in *; change (2 ^ 15) with 32768 in *;
  change (2 ^ 11) with 2048 in *; change (2 ^ 6) with 64 in *;
  change (2 ^ 5) with 32 in *; change (2 ^ 32) with 4294967296 in *;
  Z.div_mod_to_equations; lia.

(** ** The decoder *)

(** X1. Decoding the register-format word built from five fields in range
    gives them back, with opcode 0 and the mnemonic of the function code. *)
Theorem decode_R_roundtrip (rs rt rd shamt funct : Z) :
  0 <= rs < 32 -> 0 <= rt < 32 -> 0 <= rd < 32 -> 0 <= shamt < 32 ->
  0 <= funct < 64 ->
  decode (word_R rs rt rd shamt funct) =
    Ret (mkDecoded "R" 0
           (table_get R_FUNCTS funct ("unknown_r(0x" ++ format_02x funct ++ ")"))
           (Some rs) (Some rt) (Some rd) (Some shamt) (Some funct) None None).
Proof.
  intros Hrs Hrt Hrd Hsh Hfn. rewrite decode_fields.
  assert (Ho : f_opcode (word_R rs rt rd shamt funct) = 0)
    by (unfold word_R; field_solve).
  assert (E1 : f_rs (word_R rs rt rd shamt funct) = rs)
    by (unfold word_R; field_solve).
  assert (E2 : f_rt (word_R rs rt rd shamt funct) = rt)
    by (unfold word_R; field_solve).
  assert (E3 : f_rd (word_R rs rt rd shamt funct) = rd)
    by (unfold word_R; field_solve).
  assert (E4 : f_shamt (word_R rs rt rd shamt funct) = shamt)
    by (unfold word_R; field_solve).
  assert (E5 : f_funct (word_R rs rt rd shamt funct) = funct)
    by (unfold word_R; field_solve).
  rewrite Ho, E1, E2, E3, E4, E5. reflexivity.
Qed.

Lemma decode_R_roundtrip_witness :
  decode (word_R 1 2 3 0 0x20) =
    Ret (mkDecoded "R" 0 "add" (Some 1) (Some 2) (Some 3) (Some 0) (Some 0x20)
           None None).
Proof. apply (decode_R_roundtrip 1 2 3 0 0x20); lia. Defined.

(** X2. Decoding the immediate-format word built from an opcode other than
    0 and 2, two register numbers and a signed 16-bit immediate gives them
    back: the immediate is sign-extended to the integer it encodes. *)
Theorem decode_I_roundtrip (opcode rs rt imm : Z) :
  0 < opcode < 64 -> opcode <> 2 ->
  0 <= rs < 32 -> 0 <= rt < 32 -> -32768 <= imm <= 32767 ->
  decode (word_I opcode rs rt imm) =
    Ret (mkDecoded "I" opcode
           (table_get I_OPCODES opcode
              ("unknown_i(0x" ++ format_02x opcode ++ ")"))
           (Some rs) (Some rt) None None None (Some imm) None).
Proof.
  intros Hop Hop2 Hrs Hrt Himm. rewrite decode_fields.
  assert (Ho : f_opcode (word_I opcode rs rt imm) = opcode)
    by (unfold word_I; field_solve).
  assert (E1 : f_rs (word_I opcode rs rt imm) = rs)
    by (unfold word_I; field_solve).
  assert (E2 : f_rt (word_I opcode rs rt imm) = rt)
    by (unfold word_I; field_solve).
  assert (E3 : f_imm (word_I opcode rs rt imm) = imm).
  { rewrite f_imm_arith.
    assert (Hm : word_I opcode rs rt imm mod 2 ^ 16 = imm mod 2 ^ 16)
      by (unfold word_I; field_solve).
    rewrite Hm.
    destruct (Z.ltb_spec (imm mod 2 ^ 16) (2 ^ 15)); field_solve. }
  rewrite Ho, E1, E2, E3.
  destruct (Z.eqb_spec opcode 0); [lia|].
  destruct (Z.eqb_spec opcode 2); [contradiction|]. reflexivity.
Qed.

Lemma decode_I_roundtrip_witness :
  decode (word_I 0x23 5 6 (-4)) =
    Ret (mkDecoded "I" 0x23 "lw" (Some 5) (Some 6) None None None (Some (-4))
           None).
Proof. apply (decode_I_roundtrip 0x23 5 6 (-4)); lia. Defined.

(** X3. Decoding the jump word built from a 26-bit address gives the
    address back, with the mnemonic ["j"]. *)
Theorem decode_J_roundtrip (address : Z) :
  0 <= address < 2 ^ 26 ->
  decode (word_J address) =
    Ret (mkDecoded "J" 2 "j" None None None None None None (Some address)).
Proof.
  intros Ha. rewrite decode_fields.
  assert (Ho : f_opcode (word_J address) = 2) by (unfold word_J; field_solve).
  assert (E1 : f_address (word_J address) = address)
    by (unfold word_J; field_solve).
  rewrite Ho, E1. reflexivity.
Qed.

Lemma decode_J_roundtrip_witness :
  decode (word_J 0x10) =
    Ret (mkDecoded "J" 2 "j" None None None None None None (Some 0x10)).
Proof. apply (decode_J_roundtrip 0x10). lia. Defined.

Lemma f_imm_bounds w : -32768 <= f_imm w <= 32767.
Proof.
  rewrite f_imm_arith.
  destruct (Z.ltb_spec (w mod 2 ^ 16) (2 ^ 15)); field_solve.
Qed.

(** X4. Whatever the word (32 bits or not, negative or not), the decoded
    opcode and function code are within 0..63, the shift amount within 0..31,
    the immediate within -32768..32767 and the jump address within
    0..2^26-1. *)
Theorem decode_field_ranges (w : Z) :
  exists d, decode w = Ret d /\
    0 <= d_opcode d <= 63 /\
    (forall f, d_funct d = Some f -> 0 <= f <= 63) /\
    (forall sh, d_shamt d = Some sh -> 0 <= sh <= 31) /\
    (forall i, d_imm d = Some i -> -32768 <= i <= 32767) /\
    (forall a, d_address d = Some a -> 0 <= a <= 2 ^ 26 - 1).
Proof.
  rewrite decode_fields.
  assert (Hop : 0 <= f_opcode w <= 63) by field_solve.
  assert (Hfn : 0 <= f_funct w <= 63) by field_solve.
  assert (Hsh : 0 <= f_shamt w <= 31) by field_solve.
  assert (Had : 0 <= f_address w <= 2 ^ 26 - 1) by field_solve.
  pose proof (f_imm_bounds w) as Him.
  destruct (f_opcode w =? 0); [|destruct (f_opcode w =? 2)];
    eexists; (split; [reflexivity|]); cbn;
    (split; [exact Hop|]);
    (split; [|split; [|split]]); intros x Hx; try discriminate Hx;
    injection Hx as <-; lia.
Qed.

(** The word -1 (all bits set): the immediate format with opcode 63. *)
Lemma decode_field_ranges_witness :
  exists d, decode (-1) = Ret d /\ d_opcode d = 63 /\ d_imm d = Some (-1) /\
            -32768 <= -1 <= 32767.
Proof.
  destruct (decode_field_ranges (-1)) as (d & Hd & _ & _ & _ & Hi & _).
  exists d. split; [exact Hd|].
  vm_compute in Hd. injection Hd as <-.
  split; [reflexivity|]. split; [reflexivity|]. apply Hi. reflexivity.
Defined.

Lemma land_low_bits w k m :
  0 <= k -> 0 <= m -> k + m <= 32 ->
  Z.land (Z.shiftr (Z.land w (Z.ones 32)) k) (Z.ones m)
  = Z.land (Z.shiftr w k) (Z.ones m).
Proof.
  intros Hk Hm Hkm. apply Z.bits_inj'. intros i Hi.
  rewrite !Z.land_spec, !Z.shiftr_spec, Z.land_spec by assumption.
  rewrite !Z.testbit_ones by lia.
  destruct (Z.ltb_spec i m) as [Hlt | Hge].
  - replace (i + k <? 32) with true by (symmetry; apply Z.ltb_lt; lia).
    replace (0 <=? i + k) with true by (symmetry; apply Z.leb_le; lia).
    cbn. rewrite andb_true_r. reflexivity.
  - rewrite !andb_false_r. reflexivity.
Qed.

Lemma field_low_bits w :
  f_opcode (mask32 w) = f_opcode w /\ f_rs (mask32 w) = f_rs w /\
  f_rt (mask32 w) = f_rt w /\ f_rd (mask32 w) = f_rd w /\
  f_shamt (mask32 w) = f_shamt w /\ f_funct (mask32 w) = f_funct w /\
  f_imm (mask32 w) = f_imm w /\ f_address (mask32 w) = f_address w.
Proof.
  assert (H0 : forall m, 0 <= m <= 32 ->
            Z.land (mask32 w) (Z.ones m) = Z.land w (Z.ones m)).
  { intros m Hm. pose proof (land_low_bits w 0 m) as H.
    rewrite !Z.shiftr_0_r in H. apply H; lia. }
  unfold f_opcode, f_rs, f_rt, f_rd, f_shamt, f_funct, f_imm, f_address.
  repeat split.
  - apply (land_low_bits w 26 6); lia.
  - apply (land_low_bits w 21 5); lia.
  - apply (land_low_bits w 16 5); lia.
  - apply (land_low_bits w 11 5); lia.
  - apply (land_low_bits w 6 5); lia.
  - apply (H0 6); lia.
  - change 0xFFFF with (Z.ones 16). rewrite (H0 16) by lia. reflexivity.
  - apply (H0 26); lia.
Qed.

(** X5. [decode] looks at the low 32 bits of its argument only: an integer
    outside the 32-bit range decodes as its remainder modulo 2^32 does. *)
Theorem decode_low_32_bits (w : Z) :
  decode (w mod 2 ^ 32) = decode w.
Proof.
  replace (w mod 2 ^ 32) with (mask32 w)
    by (unfold mask32; change 0xFFFFFFFF with (Z.ones 32);
        apply Z.land_ones; lia).
  rewrite !decode_fields.
  destruct (field_low_bits w)
    as (-> & -> & -> & -> & -> & -> & -> & ->).
  reflexivity.
Qed.

(** ** The display text *)

Lemma prefix_append (a b : string) : String.prefix a (a ++ b) = true.
Proof.
  induction a as [|c a IH].
  - destruct b; reflexivity.
  - change (String c a ++ b) with (String c (a ++ b)). cbn [String.prefix].
    destruct (ascii_dec c c) as [_|Hne]; [exact IH | contradiction].
Qed.

Lemma prefix_append2 (a b c : string) :
  String.prefix (a ++ b) (a ++ b ++ c) = true.
Proof.
  induction a as [|x a IH].
  - change (String.prefix b (b ++ c) = true). apply prefix_append.
  - change (String x a ++ b) with (String x (a ++ b)).
    change (String x a ++ b ++ c) with (String x (a ++ b ++ c)).
    cbn [String.prefix].
    destruct (ascii_dec x x) as [_|Hne]; [exact IH | contradiction].
Qed.

(** X6. [format_decoded] finds every key it reads in whatever [decode]
    returns, so the two compose without a [KeyError]; the text starts with
    the format letter, ["-type: "] and the mnemonic. *)
Theorem format_decoded_of_decode (w : Z) :
  exists d text,
    decode w = Ret d /\ format_decoded d = Ret text /\
    String.prefix (d_type d ++ "-type: " ++ d_mnemonic d) text = true.
Proof.
  rewrite decode_fields.
  destruct (f_opcode w =? 0); [|destruct (f_opcode w =? 2)];
    eexists _, _; (split; [reflexivity|]); (split; [reflexivity|]);
    cbn [d_type d_mnemonic].
  - apply (prefix_append2 "R-type: ").
  - apply (prefix_append2 "J-type: ").
  - apply (prefix_append2 "I-type: ").
Qed.

(** ** Fetching *)

Lemma fetch_at_offset (s : SimpleMIPS) (k r : Z) :
  0 <= r < 4 ->
  fetch_instr_at_pc s (base s + 4 * k + r) =
    Ret (if k <? 0 then None else instrs s !! Z.to_nat k).
Proof.
  intros Hr.
  assert (Hidx : (base s + 4 * k + r - base s) / 4 = k).
  { replace (base s + 4 * k + r - base s) with (k * 4 + r) by lia.
    rewrite Z.div_add_l by lia. rewrite Z.div_small by lia. lia. }
  destruct (fetch_cases s (base s + 4 * k + r))
    as [[Hf Hout] | (w & Hf & Hin & Hw)]; rewrite Hf, Hidx in *.
  - destruct (Z.ltb_spec k 0) as [Hlt | Hge]; [reflexivity|].
    f_equal. symmetry. apply lookup_ge_None. lia.
  - rewrite Hw. destruct (Z.ltb_spec k 0) as [Hlt | Hge]; [lia | reflexivity].
Qed.

(** X7. [fetch_instr_at_pc] never raises and indexes by floor division: an
    address up to three bytes past a word boundary fetches that word, an
    address past the end gives no value, and so does an address below the
    base (the negative index is not taken from the end of the list). *)
Theorem fetch_floor_index (s : SimpleMIPS) (k r : Z) :
  0 <= r < 4 ->
  fetch_instr_at_pc s (base s + 4 * k + r) =
    Ret (if k <? 0 then None else instrs s !! Z.to_nat k).
Proof. apply fetch_at_offset. Qed.

Lemma fetch_floor_index_witness :
  fetch_instr_at_pc (init [0x2001FFFF; 0x08000010] 0x00400000) 0x00400006
    = Ret (Some 0x08000010) /\
  fetch_instr_at_pc (init [0x2001FFFF; 0x08000010] 0x00400000) 0x003FFFFC
    = Ret None.
Proof.
  split.
  - apply (fetch_floor_index (init [0x2001FFFF; 0x08000010] 0x00400000) 1 2).
    lia.
  - apply (fetch_floor_index (init [0x2001FFFF; 0x08000010] 0x00400000)
             (-1) 0).
    lia.
Defined.

(** ** More about one step *)

Lemma reachable_step_case s :
  reachable s ->
  exists r s', step s = Ret (r, s') /\ step_case s r s' /\ inv s /\ inv s'.
Proof.
  intros Hr. pose proof (reachable_inv s Hr) as Hi.
  destruct (step_cases s (inv_wf s Hi)) as (r & s' & Hs & Hc).
  exists r, s'. split; [exact Hs|]. split; [exact Hc|].
  split; [exact Hi | exact (step_case_inv s r s' Hi Hc)].
Qed.

(** X8. A step from a reachable state never touches the instruction memory
    or the base, never clears the halted flag, and sets it exactly when the
    status is not ["ok"]; a step that is not ["ok"] leaves registers,
    memory, program counter and step counter as they were. *)
Theorem step_frame (s : SimpleMIPS) :
  reachable s ->
  exists r s', step s = Ret (r, s') /\
    instrs s' = instrs s /\ base s' = base s /\
    (halted s = true -> halted s' = true) /\
    (halted s' = false <-> r_status r = Some "ok") /\
    (r_status r <> Some "ok" ->
       regs s' = regs s /\ mem s' = mem s /\ pc s' = pc s /\
       step_count s' = step_count s).
Proof.
  intros Hr.
  destruct (reachable_step_case s Hr) as (r & s' & Hs & Hc & Hi & Hi').
  exists r, s'. split; [exact Hs|].
  destruct Hc as [Hh | Hh Hf | w d rg m p ma Hh Hf Hd He]; cbn.
  - rewrite Hh. repeat split; try tauto; try discriminate.
  - repeat split; try tauto; try discriminate.
  - rewrite Hh. repeat split; try tauto; try discriminate.
Qed.

Lemma step_frame_witness :
  exists r s',
    step (init [] DEFAULT_BASE_PC) = Ret (r, s') /\
    r_status r = Some "pc_out_of_range" /\ halted s' = true /\
    pc s' = DEFAULT_BASE_PC.
Proof.
  destruct (step_frame (init [] DEFAULT_BASE_PC) (reach_init _ _))
    as (r & s' & Hs & _ & _ & _ & Hh & Hsame).
  exists r, s'. split; [exact Hs|].
  vm_compute in Hs. injection Hs as <- <-.
  split; [reflexivity|]. split; [reflexivity|].
  apply Hsame. discriminate.
Defined.

(** X9. The result of an ["ok"] step describes the step: it carries the
    program counter before the step, the word fetched there and its
    decoding, the new value of the step counter (the old one plus 1) and the
    register file as it is after the step; a reported memory write is the
    only change to memory, a reported read is the stored word (0 if there is
    none), and without a report memory is untouched. *)
Theorem ok_result_describes_step (s : SimpleMIPS) (r : StepResult)
    (s' : SimpleMIPS) :
  reachable s ->
  step s = Ret (r, s') ->
  r_status r = Some "ok" ->
  r_pc r = Some (pc s) /\
  (exists w d, r_instr r = Some w /\
               fetch_instr_at_pc s (pc s) = Ret (Some w) /\
               decode w = Ret d /\ r_decoded r = Some d) /\
  step_count s' = step_count s + 1 /\
  r_step r = Some (step_count s') /\
  r_regs_snapshot r = Some (regs s') /\
  match r_mem_access r with
  | None => mem s' = mem s
  | Some ma =>
      if (ma_type ma =? "write")%string
      then mem s' = <[ma_addr ma := ma_value ma]> (mem s)
      else mem s' = mem s /\ ma_value ma = default 0 (mem s !! ma_addr ma)
  end.
Proof.
  intros Hr Hs Hok.
  pose proof (step_case_of s r s' (reachable_wf s Hr) Hs) as Hc.
  destruct Hc as [Hh | Hh Hf | w d rg m p ma Hh Hf Hd He];
    try discriminate Hok.
  cbn. split; [reflexivity|]. split.
  { exists w, d. split; [reflexivity|]. split; [exact Hf|].
    split; [exact Hd | reflexivity]. }
  split; [reflexivity|]. split; [reflexivity|]. split; [reflexivity|].
  destruct He; cbn; try reflexivity.
  split; [reflexivity | assumption].
Qed.

(** [sw $1, 4($0)] on a fresh machine. *)
Lemma ok_result_describes_step_witness :
  exists r s',
    step (init [0xAC010004] DEFAULT_BASE_PC) = Ret (r, s') /\
    r_step r = Some 1 /\ mem s' = <[4 := 0]> ∅.
Proof.
  destruct (step (init [0xAC010004] DEFAULT_BASE_PC)) as [[r s']|e] eqn:Hs;
    [|discriminate Hs].
  exists r, s'. split; [reflexivity|].
  destruct (ok_result_describes_step _ r s' (reach_init _ _) Hs)
    as (_ & _ & Hc & Hst & _ & Hm).
  - vm_compute in Hs. injection Hs as <- <-. reflexivity.
  - rewrite Hst, Hc. vm_compute in Hs. injection Hs as <- <-.
    split; [reflexivity|]. exact Hm.
Defined.

Lemma table_get_known (t : table) (k : Z) (c : ascii) (p y mn : string) :
  table_get t k (String c p ++ y) = mn ->
  match mn with
  | String c' _ => negb (Ascii.eqb c c')
  | EmptyString => true
  end = true ->
  table_lookup t k = Some mn.
Proof.
  unfold table_get. destruct (table_lookup t k) as [v|].
  - intros -> _. reflexivity.
  - intros <- H. change (negb (Ascii.eqb c c) = true) in H.
    rewrite Ascii.eqb_refl in H. discriminate H.
Qed.

(** What an immediate-format decoding with a mnemonic of the table says
    about the word. *)
Lemma decode_I_known w d mn :
  decode w = Ret d -> d_type d = "I" -> d_mnemonic d = mn ->
  match mn with
  | String c' _ => negb (Ascii.eqb "u" c')
  | EmptyString => true
  end = true ->
  table_lookup I_OPCODES (f_opcode w) = Some mn /\
  d_rs d = Some (f_rs w) /\ d_rt d = Some (f_rt w) /\
  d_imm d = Some (f_imm w).
Proof.
  intros Hd Ht Hmn Hk. rewrite decode_fields in Hd.
  destruct (f_opcode w =? 0); [injection Hd as <-; discriminate Ht|].
  destruct (f_opcode w =? 2); [injection Hd as <-; discriminate Ht|].
  injection Hd as <-. cbn [d_type d_mnemonic d_rs d_rt d_rd d_imm] in *.
  split; [|repeat split].
  eapply table_get_known; eassumption.
Qed.

Lemma decode_R_known w d mn :
  decode w = Ret d -> d_type d = "R" -> d_mnemonic d = mn ->
  match mn with
  | String c' _ => negb (Ascii.eqb "u" c')
  | EmptyString => true
  end = true ->
  f_opcode w = 0 /\ table_lookup R_FUNCTS (f_funct w) = Some mn /\
  d_rs d = Some (f_rs w) /\ d_rt d = Some (f_rt w) /\
  d_rd d = Some (f_rd w).
Proof.
  intros Hd Ht Hmn Hk. rewrite decode_fields in Hd.
  destruct (Z.eqb_spec (f_opcode w) 0) as [H0|H0].
  - injection Hd as <-. cbn [d_type d_mnemonic d_rs d_rt d_rd d_imm] in *. split; [exact H0|].
    split; [|repeat split]. eapply table_get_known; eassumption.
  - destruct (f_opcode w =? 2); injection Hd as <-; discriminate Ht.
Qed.

Lemma I_lookup_opcode op mn :
  table_lookup I_OPCODES op = Some mn ->
  (mn = "addi" /\ op = 0x08) \/ (mn = "lw" /\ op = 0x23) \/
  (mn = "sw" /\ op = 0x2b) \/ (mn = "beq" /\ op = 0x04) \/
  (mn = "bne" /\ op = 0x05).
Proof.
  unfold I_OPCODES. cbn.
  repeat (match goal with
          | |- context [?a =? ?b] => destruct (Z.eqb_spec a b)
          end; [intros [= <-]; tauto|]).
  discriminate.
Qed.

Lemma R_lookup_funct f mn :
  table_lookup R_FUNCTS f = Some mn ->
  (mn = "add" /\ f = 0x20) \/ (mn = "sub" /\ f = 0x22) \/
  (mn = "and" /\ f = 0x24) \/ (mn = "or" /\ f = 0x25) \/
  (mn = "slt" /\ f = 0x2A).
Proof.
  unfold R_FUNCTS. cbn.
  repeat (match goal with
          | |- context [?a =? ?b] => destruct (Z.eqb_spec a b)
          end; [intros [= <-]; tauto|]).
  discriminate.
Qed.

Lemma shiftl_2 x : Z.shiftl x 2 = 4 * x.
Proof. rewrite Z.shiftl_mul_pow2 by lia. change (2 ^ 2) with 4. lia. Qed.

Lemma regs_zero_insert_id s rg :
  inv s -> rg = regs s -> <[0%nat := 0]> rg = regs s.
Proof. intros Hi ->. apply list_insert_id. exact (inv_zero s Hi). Qed.

(** X10. [beq] and [bne]: when the test succeeds the program counter moves
    to pc + 4 + 4 * imm with the signed immediate (backwards when it is
    negative), otherwise to pc + 4; registers and memory are unchanged. *)
Theorem branch_moves_pc (s : SimpleMIPS) (w : Z) (d : Decoded)
    (rs rt imm : Z) (on_equal : bool) :
  reachable s ->
  halted s = false ->
  fetch_instr_at_pc s (pc s) = Ret (Some w) ->
  decode w = Ret d ->
  d_type d = "I" ->
  d_mnemonic d = (if on_equal then "beq" else "bne") ->
  d_rs d = Some rs -> d_rt d = Some rt -> d_imm d = Some imm ->
  exists r s',
    step s = Ret (r, s') /\ r_status r = Some "ok" /\
    pc s' = (if Bool.eqb (reg s rs =? reg s rt) on_equal
             then pc s + 4 + 4 * imm else pc s + 4) /\
    regs s' = regs s /\ mem s' = mem s.
Proof.
  intros Hr Hh Hf Hd Ht Hmn Hrs Hrt Himm.
  pose proof (reachable_inv s Hr) as Hi.
  destruct (decode_I_known w d _ Hd Ht Hmn) as (Hl & Hrs' & Hrt' & Himm').
  { destruct on_equal; reflexivity. }
  rewrite Hrs in Hrs'. rewrite Hrt in Hrt'. rewrite Himm in Himm'.
  injection Hrs' as ->. injection Hrt' as ->. injection Himm' as ->.
  destruct (step_running s w (inv_wf s Hi) Hh Hf)
    as (d' & rg & m & p & ma & _ & He & Hs).
  eexists _, _. split; [exact Hs|]. cbn. split; [reflexivity|].
  apply I_lookup_opcode in Hl.
  destruct (Z.eqb_spec (reg s (f_rs w)) (reg s (f_rt w))) as [Heq | Hne];
    destruct on_equal; cbn [Bool.eqb];
    destruct Hl as [[E Ho] | [[E Ho] | [[E Ho] | [[E Ho] | [E Ho]]]]];
    try discriminate E;
    inversion He; subst; try exec_absurd; try contradiction;
    rewrite ?shiftl_2;
    (split; [reflexivity|]); (split; [|reflexivity]);
    apply list_insert_id; exact (inv_zero s Hi).
Qed.

(** [beq $0,$0,-1] branches to itself. *)
Lemma branch_moves_pc_witness :
  exists r s',
    step (init [0x1000FFFF] DEFAULT_BASE_PC) = Ret (r, s') /\
    pc s' = DEFAULT_BASE_PC.
Proof.
  destruct (decode 0x1000FFFF) as [d|e] eqn:Hd; [|discriminate Hd].
  destruct (branch_moves_pc (init [0x1000FFFF] DEFAULT_BASE_PC) 0x1000FFFF d
              0 0 (-1) true) as (r & s' & Hs & _ & Hpc & _).
  - apply reach_init.
  - reflexivity.
  - reflexivity.
  - exact Hd.
  - vm_compute in Hd. injection Hd as <-. reflexivity.
  - vm_compute in Hd. injection Hd as <-. reflexivity.
  - vm_compute in Hd. injection Hd as <-. reflexivity.
  - vm_compute in Hd. injection Hd as <-. reflexivity.
  - vm_compute in Hd. injection Hd as <-. reflexivity.
  - exists r, s'. split; [exact Hs|]. rewrite Hpc. reflexivity.
Defined.

Lemma mask32_reg s i : inv s -> mask32 (reg s i) = reg s i.
Proof. intros Hi. apply in32_mask. apply in32_reg. exact (inv_regs s Hi). Qed.

Lemma reg_after_write (l : list Z) (k : Z) (v : Z) :
  length l = 32%nat -> 0 <= k < 32 ->
  nth (Z.to_nat k) (<[0%nat := 0]> (<[Z.to_nat k := v]> l)) 0
  = if k =? 0 then 0 else v.
Proof.
  intros Hl Hk. apply nth_lookup_Some with (i := Z.to_nat k).
  destruct (Z.eqb_spec k 0) as [-> | Hne].
  - apply list_lookup_insert_eq. rewrite length_insert. lia.
  - rewrite list_lookup_insert_ne by lia.
    apply list_lookup_insert_eq. lia.
Qed.

(** X11. A [sw] followed at once by a [lw] that computes the same address
    reads back what the [sw] stored, which is the value of the stored
    register itself: the load reports it and leaves it in its target
    register (register 0 stays 0). *)
Theorem store_then_load (s : SimpleMIPS) (w1 w2 : Z) (d1 d2 : Decoded)
    (r1 : StepResult) (s1 : SimpleMIPS) (rs1 rt1 imm1 rs2 rt2 imm2 : Z) :
  reachable s ->
  halted s = false ->
  fetch_instr_at_pc s (pc s) = Ret (Some w1) ->
  decode w1 = Ret d1 -> d_type d1 = "I" -> d_mnemonic d1 = "sw" ->
  d_rs d1 = Some rs1 -> d_rt d1 = Some rt1 -> d_imm d1 = Some imm1 ->
  step s = Ret (r1, s1) ->
  fetch_instr_at_pc s1 (pc s1) = Ret (Some w2) ->
  decode w2 = Ret d2 -> d_type d2 = "I" -> d_mnemonic d2 = "lw" ->
  d_rs d2 = Some rs2 -> d_rt d2 = Some rt2 -> d_imm d2 = Some imm2 ->
  reg s1 rs2 + imm2 = reg s rs1 + imm1 ->
  exists r2 s2,
    step s1 = Ret (r2, s2) /\
    mem s1 !! (reg s rs1 + imm1) = Some (reg s rt1) /\
    r_mem_access r2 =
      Some (mkMemAccess "read" (reg s rs1 + imm1) (reg s rt1)) /\
    reg s2 rt2 = (if rt2 =? 0 then 0 else reg s rt1).
Proof.
  intros Hr Hh Hf1 Hd1 Ht1 Hm1 Hrs1 Hrt1 Himm1 Hs1 Hf2 Hd2 Ht2 Hm2
    Hrs2 Hrt2 Himm2 Haddr.
  pose proof (reachable_inv s Hr) as Hi.
  assert (Hr1 : reachable s1) by (eapply reach_step; eassumption).
  pose proof (reachable_inv s1 Hr1) as Hi1.
  destruct (decode_I_known w1 d1 _ Hd1 Ht1 Hm1 eq_refl)
    as (Hl1 & Hrs1' & Hrt1' & Himm1').
  destruct (decode_I_known w2 d2 _ Hd2 Ht2 Hm2 eq_refl)
    as (Hl2 & Hrs2' & Hrt2' & Himm2').
  rewrite Hrs1 in Hrs1'. rewrite Hrt1 in Hrt1'. rewrite Himm1 in Himm1'.
  rewrite Hrs2 in Hrs2'. rewrite Hrt2 in Hrt2'. rewrite Himm2 in Himm2'.
  injection Hrs1' as ->. injection Hrt1' as ->. injection Himm1' as ->.
  injection Hrs2' as ->. injection Hrt2' as ->. injection Himm2' as ->.
  apply I_lookup_opcode in Hl1, Hl2.
  assert (Ho1 : f_opcode w1 = 0x2b).
  { destruct Hl1 as [[E Ho] | [[E Ho] | [[E Ho] | [[E Ho] | [E Ho]]]]];
      try discriminate E; exact Ho. }
  assert (Ho2 : f_opcode w2 = 0x23).
  { destruct Hl2 as [[E Ho] | [[E Ho] | [[E Ho] | [[E Ho] | [E Ho]]]]];
      try discriminate E; exact Ho. }
  clear Hl1 Hl2.
  destruct (step_running s w1 (inv_wf s Hi) Hh Hf1)
    as (d1' & rg1 & m1 & p1 & ma1 & _ & He1 & Hs1').
  rewrite Hs1 in Hs1'. injection Hs1' as -> ->.
  assert (Hm : mem (ok_state s rg1 m1 p1) !! (reg s (f_rs w1) + f_imm w1)
               = Some (reg s (f_rt w1))).
  { inversion He1; subst; try exec_absurd. cbn.
    rewrite lookup_insert_eq. rewrite (mask32_reg s _ Hi). reflexivity. }
  destruct (step_running _ w2 (inv_wf _ Hi1) eq_refl Hf2)
    as (d2' & rg2 & m2 & p2 & ma2 & _ & He2 & Hs2).
  eexists _, _. split; [exact Hs2|]. split; [exact Hm|].
  inversion He2; subst; try exec_absurd.
  rewrite Haddr, Hm. cbn [default ok_result ok_state r_mem_access regs reg].
  split; [reflexivity|].
  apply reg_after_write.
  - apply (inv_len _ Hi1).
  - apply land_31.
Qed.

(** [addi $1,$0,7; sw $1,4($0); lw $2,4($0)], from the state after the
    first instruction. *)
Lemma store_then_load_witness :
  exists s s1 r2 s2,
    reachable s /\ reg s 1 = 7 /\
    step s1 = Ret (r2, s2) /\
    r_mem_access r2 = Some (mkMemAccess "read" 4 7) /\ reg s2 2 = 7.
Proof.
  pose (s0 := init [0x20010007; 0xAC010004; 0x8C020004] DEFAULT_BASE_PC).
  destruct (step s0) as [[r0 s]|e] eqn:E0; [|discriminate E0].
  assert (Hr : reachable s) by (eapply reach_step; [apply reach_init | exact E0]).
  vm_compute in E0. injection E0 as <- <-.
  destruct (decode 0xAC010004) as [d1|e] eqn:Hd1; [|discriminate Hd1].
  destruct (decode 0x8C020004) as [d2|e] eqn:Hd2; [|discriminate Hd2].
  match type of Hr with reachable ?st => set (s := st) in * end.
  destruct (step s) as [[r1 s1]|e] eqn:E1; [|discriminate E1].
  pose proof E1 as E1'. vm_compute in E1'. injection E1' as <- <-.
  match type of E1 with _ = Ret (?r, ?st) =>
    set (r1 := r) in *; set (s1 := st) in * end.
  destruct (store_then_load s 0xAC010004 0x8C020004 d1 d2 r1 s1 0 1 4 0 2 4)
    as (r2 & s2 & Hs2 & _ & Hma & Hreg);
    try exact Hr; try exact Hd1; try exact Hd2; try exact E1;
    try (vm_compute in Hd1; injection Hd1 as <-; reflexivity);
    try (vm_compute in Hd2; injection Hd2 as <-; reflexivity);
    try reflexivity.
  exists s, s1, r2, s2. split; [exact Hr|]. split; [reflexivity|].
  split; [exact Hs2|]. split; [exact Hma | exact Hreg].
Defined.

Lemma jump_target_low_bits p a : Z.land (jump_target p a) 3 = 0.
Proof.
  unfold jump_target. rewrite Z.land_lor_distr_l.
  rewrite <- !Z.land_assoc. change (Z.land 0xF0000000 3) with 0.
  change (Z.land 0x0FFFFFFF 3) with 3.
  rewrite Z.land_0_r, Z.lor_0_l.
  change 3 with (Z.ones 2). rewrite Z.land_ones by lia.
  rewrite Z.shiftl_mul_pow2 by lia. apply Z.mod_mul. lia.
Qed.

Lemma mod4_land x : x mod 4 = Z.land x 3.
Proof. change 3 with (Z.ones 2). rewrite Z.land_ones by lia. reflexivity. Qed.

(** X12. The jump target keeps the four top bits (28..31) of the program
    counter, takes bits 2..27 from the address field, is a multiple of 4
    and lies in [0, 2^32) whatever the program counter was. *)
Theorem jump_target_shape (s : SimpleMIPS) (w : Z) (d : Decoded) (a : Z) :
  reachable s ->
  halted s = false ->
  fetch_instr_at_pc s (pc s) = Ret (Some w) ->
  decode w = Ret d ->
  d_type d = "J" ->
  d_address d = Some a ->
  exists r s',
    step s = Ret (r, s') /\
    0 <= pc s' < 2 ^ 32 /\
    pc s' mod 4 = 0 /\
    Z.land (pc s') 0xF0000000 = Z.land (pc s) 0xF0000000 /\
    pc s' mod 2 ^ 28 = 4 * a /\
    regs s' = regs s /\ mem s' = mem s.
Proof.
  intros Hr Hh Hf Hd Ht Ha.
  pose proof (reachable_inv s Hr) as Hi.
  destruct (decode_type_J w d Hd Ht) as (Hop & _ & Ha').
  rewrite Ha in Ha'. injection Ha' as ->.
  destruct (step_running s w (inv_wf s Hi) Hh Hf)
    as (d' & rg & m & p & ma & _ & He & Hs).
  destruct (exec_j_inv s w rg m p ma Hop He) as (-> & -> & -> & ->).
  eexists _, _. split; [exact Hs|]. cbn [ok_state pc regs mem].
  assert (Hlow : Z.land (jump_target (pc s) (f_address w)) 0x0FFFFFFF
                 = 4 * f_address w).
  { unfold jump_target. rewrite Z.land_lor_distr_l.
    rewrite <- !Z.land_assoc. change (Z.land 0xF0000000 0x0FFFFFFF) with 0.
    change (Z.land 0x0FFFFFFF 0x0FFFFFFF) with 0x0FFFFFFF.
    rewrite Z.land_0_r, Z.lor_0_l.
    change 0x0FFFFFFF with (Z.ones 28). rewrite Z.land_ones by lia.
    rewrite shiftl_2. rewrite f_address_arith.
    change (2 ^ 28) with 268435456. change (2 ^ 26) with 67108864.
    Z.div_mod_to_equations. lia. }
  assert (Hhigh : Z.land (jump_target (pc s) (f_address w)) 0xF0000000
                  = Z.land (pc s) 0xF0000000).
  { unfold jump_target. rewrite Z.land_lor_distr_l.
    rewrite <- !Z.land_assoc. change (Z.land 0x0FFFFFFF 0xF0000000) with 0.
    change (Z.land 0xF0000000 0xF0000000) with 0xF0000000.
    rewrite Z.land_0_r, Z.lor_0_r. reflexivity. }
  assert (Hrange : in32 (jump_target (pc s) (f_address w))).
  { unfold jump_target. apply in32_lor.
    - rewrite Z.land_comm. apply in32_land. unfold in32. lia.
    - rewrite Z.land_comm. apply in32_land. unfold in32. lia. }
  split; [exact Hrange|].
  split; [rewrite mod4_land; apply jump_target_low_bits|].
  split; [exact Hhigh|].
  split.
  { change 0x0FFFFFFF with (Z.ones 28) in Hlow.
    rewrite Z.land_ones in Hlow by lia. exact Hlow. }
  split; [|reflexivity]. apply list_insert_id. exact (inv_zero s Hi).
Qed.

Lemma jump_target_shape_witness :
  exists r s',
    step (init [0x08000010] 0x00400000) = Ret (r, s') /\
    pc s' mod 2 ^ 28 = 4 * 0x10.
Proof.
  destruct (decode 0x08000010) as [d|e] eqn:Hd; [|discriminate Hd].
  destruct (jump_target_shape (init [0x08000010] 0x00400000) 0x08000010 d 0x10)
    as (r & s' & Hs & _ & _ & _ & Hlow & _).
  - apply reach_init.
  - reflexivity.
  - reflexivity.
  - exact Hd.
  - vm_compute in Hd. injection Hd as <-. reflexivity.
  - vm_compute in Hd. injection Hd as <-. reflexivity.
  - exists r, s'. split; [exact Hs | exact Hlow].
Defined.

Lemma exec_pc_aligned s w rg m p ma :
  exec s w rg m p ma -> pc s mod 4 = 0 -> p mod 4 = 0.
Proof.
  intros He Hpc.
  destruct He; rewrite ?shiftl_2;
    try (rewrite mod4_land; apply jump_target_low_bits);
    Z.div_mod_to_equations; lia.
Qed.

(** X13. When the base address is a multiple of 4, so is the program
    counter of every reachable state: sequential advance, taken branches and
    jumps all keep it word-aligned relative to the base. *)
Theorem pc_stays_aligned (s : SimpleMIPS) :
  reachable s -> base s mod 4 = 0 -> pc s mod 4 = 0.
Proof.
  induction 1 as [ws b | s r s' Hr IH Hs]; intros Hb.
  - exact Hb.
  - pose proof (step_case_of s r s' (reachable_wf s Hr) Hs) as Hc.
    destruct Hc as [Hh | Hh Hf | w d rg m p ma Hh Hf Hd He].
    + apply IH, Hb.
    + apply IH, Hb.
    + cbn in *. apply (exec_pc_aligned s w rg m p ma He). apply IH, Hb.
Qed.

(** After [j 0x10] from the default base. *)
Lemma pc_stays_aligned_witness :
  exists r s',
    step (init [0x08000010] DEFAULT_BASE_PC) = Ret (r, s') /\ pc s' mod 4 = 0.
Proof.
  destruct (step (init [0x08000010] DEFAULT_BASE_PC)) as [[r s']|e] eqn:Hs;
    [|discriminate Hs].
  exists r, s'. split; [reflexivity|].
  apply pc_stays_aligned.
  - eapply reach_step; [apply reach_init | exact Hs].
  - vm_compute in Hs. injection Hs as <- <-. reflexivity.
Defined.

(** X14. A step changes at most one register and at most one memory word:
    there are a register number and an address outside of which registers
    and memory read as before. *)
Theorem step_changes_one_cell (s : SimpleMIPS) :
  reachable s ->
  exists r s', step s = Ret (r, s') /\
    (exists k : nat, forall i, i <> k -> regs s' !! i = regs s !! i) /\
    (exists a : Z, forall b, b <> a -> mem s' !! b = mem s !! b).
Proof.
  intros Hr.
  destruct (reachable_step_case s Hr) as (r & s' & Hs & Hc & Hi & Hi').
  exists r, s'. split; [exact Hs|].
  destruct Hc as [Hh | Hh Hf | w d rg m p ma Hh Hf Hd He].
  - split; [exists 0%nat | exists 0]; reflexivity.
  - split; [exists 0%nat | exists 0]; reflexivity.
  - cbn [ok_state regs mem].
    assert (Hz : forall (l : list Z) (k i : nat) v,
               l = regs s \/ l = <[k := v]> (regs s) ->
               i <> k -> <[0%nat := 0]> l !! i = regs s !! i).
    { intros l k i v Hl Hik. destruct i as [|i].
      - rewrite list_lookup_insert_eq.
        + symmetry. exact (inv_zero s Hi).
        + destruct Hl as [-> | ->]; rewrite ?length_insert, (inv_len s Hi); lia.
      - rewrite list_lookup_insert_ne by discriminate.
        destruct Hl as [-> | ->]; [reflexivity|].
        apply list_lookup_insert_ne. congruence. }
    destruct He; (split;
      [ first
          [ exists (Z.to_nat (f_rd w)); intros i Hik;
            eapply Hz; [right; reflexivity | exact Hik]
          | exists (Z.to_nat (f_rt w)); intros i Hik;
            eapply Hz; [right; reflexivity | exact Hik]
          | exists 0%nat; intros i Hik;
            apply (Hz _ 0%nat i 0); [left; reflexivity | exact Hik] ]
      | first
          [ exists 0; intros b Hb; reflexivity
          | exists addr; intros b Hb; apply lookup_insert_ne; congruence ] ]).
Qed.

Lemma step_changes_one_cell_witness :
  exists r s', step (init [0x20010007] DEFAULT_BASE_PC) = Ret (r, s') /\
    exists k : nat,
      forall i, i <> k ->
        regs s' !! i = regs (init [0x20010007] DEFAULT_BASE_PC) !! i.
Proof.
  destruct (step_changes_one_cell (init [0x20010007] DEFAULT_BASE_PC)
              (reach_init _ _)) as (r & s' & Hs & Hk & _).
  exists r, s'. split; [exact Hs | exact Hk].
Defined.

(** ** More about bounded runs *)

Lemma run_loop_acc k :
  forall s acc,
    run_loop k s acc =
      '(l, s') ← run_loop k s []; Ret ((acc ++ l)%list, s').
Proof.
  induction k as [|k IH]; intros s acc.
  - cbn. rewrite app_nil_r. reflexivity.
  - cbn [run_loop]. destruct (halted s).
    + cbn. rewrite app_nil_r. reflexivity.
    + destruct (step s) as [[r s1]|e]; [|reflexivity].
      cbn. rewrite (IH s1 (acc ++ [r])%list), (IH s1 [r]).
      destruct (run_loop k s1 []) as [[l s']|e]; [|reflexivity].
      cbn. rewrite <- app_assoc. reflexivity.
Qed.

Lemma run_loop_add a :
  forall s acc b,
    run_loop (a + b) s acc =
      '(l1, s1) ← run_loop a s acc; run_loop b s1 l1.
Proof.
  induction a as [|a IH]; intros s acc b.
  - reflexivity.
  - cbn [Nat.add run_loop]. destruct (halted s) eqn:Hh.
    + cbn. rewrite (run_loop_halted b s acc Hh). reflexivity.
    + destruct (step s) as [[r s1]|e]; [|reflexivity].
      cbn. apply IH.
Qed.

(** X15. Two runs in a row are one run with the sum of the budgets: the
    results of [run_n(a)] followed by those of [run_n(b)] on the machine it
    leaves are the results of [run_n(a + b)], and the final machine is the
    same. *)
Theorem run_n_compose (s : SimpleMIPS) (a b : Z) :
  0 <= a -> 0 <= b ->
  run_n s (a + b) =
    '(l1, s1) ← run_n s a;
    '(l2, s2) ← run_n s1 b;
    Ret ((l1 ++ l2)%list, s2).
Proof.
  intros Ha Hb. unfold run_n. rewrite Z2Nat.inj_add by assumption.
  rewrite run_loop_add.
  destruct (run_loop (Z.to_nat a) s []) as [[l1 s1]|e]; [|reflexivity].
  cbn. apply run_loop_acc.
Qed.

Lemma run_n_compose_witness :
  run_n (init [0x20010007; 0x20020001] DEFAULT_BASE_PC) (1 + 10) =
    '(l1, s1) ← run_n (init [0x20010007; 0x20020001] DEFAULT_BASE_PC) 1;
    '(l2, s2) ← run_n s1 10;
    Ret ((l1 ++ l2)%list, s2).
Proof. apply run_n_compose; lia. Defined.

Lemma run_loop_statuses k :
  forall s acc, inv s ->
  exists l s' (j : nat),
    run_loop k s acc = Ret ((acc ++ l)%list, s') /\
    (map r_status l = repeat (Some "ok") j \/
     (map r_status l = (repeat (Some "ok") j ++ [Some "pc_out_of_range"])%list
      /\ halted s' = true)) /\
    step_count s' = step_count s + Z.of_nat j.
Proof.
  induction k as [|k IH]; intros s acc Hi.
  - exists [], s, 0%nat. cbn. rewrite app_nil_r.
    split; [reflexivity|]. split; [left; reflexivity | lia].
  - destruct (halted s) eqn:Hh.
    + exists [], s, 0%nat. rewrite (run_loop_halted _ s acc Hh), app_nil_r.
      split; [reflexivity|]. split; [left; reflexivity | lia].
    + destruct (step_cases s (inv_wf s Hi)) as (r & s1 & Hs & Hc).
      pose proof (step_case_inv s r s1 Hi Hc) as Hi1.
      rewrite (run_loop_step k s acc r s1 Hh Hs).
      destruct Hc as [Hh' | Hh' Hf | w d rg m p ma Hh' Hf Hd He].
      * rewrite Hh in Hh'. discriminate Hh'.
      * exists [out_of_range_result (pc s)], (set_halted s true), 0%nat.
        rewrite run_loop_halted by reflexivity.
        split; [reflexivity|]. split; [right; split; reflexivity|].
        cbn. lia.
      * destruct (IH _ (acc ++ [ok_result s w d ma (<[0%nat := 0]> rg)])%list
                    Hi1) as (l & s' & j & Hrun & Hst & Hcnt).
        exists (ok_result s w d ma (<[0%nat := 0]> rg) :: l), s', (S j).
        split; [rewrite Hrun, <- app_assoc; reflexivity|].
        split.
        { destruct Hst as [Hst | [Hst Hhalt]]; [left | right; split];
            cbn; rewrite ?Hst; try reflexivity; exact Hhalt. }
        rewrite Hcnt. cbn [ok_state step_count]. lia.
Qed.

(** X16. The results of a run from a reachable state are a series of
    ["ok"] results, possibly ended by one ["pc_out_of_range"] result, in
    which case the machine is left halted; a ["halted"] result never
    appears. The step counter grows by the number of ["ok"] results. *)
Theorem run_n_statuses (s : SimpleMIPS) (n : Z) :
  reachable s ->
  exists l s' (j : nat),
    run_n s n = Ret (l, s') /\
    (map r_status l = repeat (Some "ok") j \/
     (map r_status l = (repeat (Some "ok") j ++ [Some "pc_out_of_range"])%list
      /\ halted s' = true)) /\
    step_count s' = step_count s + Z.of_nat j /\
    count_ok l = Z.of_nat j.
Proof.
  intros Hr. unfold run_n.
  destruct (run_loop_statuses (Z.to_nat n) s [] (reachable_inv s Hr))
    as (l & s' & j & Hrun & Hst & Hcnt).
  exists l, s', j. split; [exact Hrun|]. split; [exact Hst|].
  split; [exact Hcnt|].
  assert (Hok : forall (l0 : list StepResult) (j0 : nat),
            map r_status l0 = repeat (Some "ok") j0 \/
            map r_status l0 =
              (repeat (Some "ok") j0 ++ [Some "pc_out_of_range"])%list ->
            count_ok l0 = Z.of_nat j0).
  { clear. intros l0 j0. revert l0.
    induction j0 as [|j0 IH]; intros l0 [H | H].
    - destruct l0; [reflexivity | discriminate H].
    - destruct l0 as [|r [|r' l0]]; try discriminate H.
      cbn in H. injection H as H. cbn. unfold is_ok. rewrite H. reflexivity.
    - destruct l0 as [|r l0]; [discriminate H|].
      cbn in H. injection H as H1 H2.
      cbn [count_ok]. unfold is_ok at 1. rewrite H1. cbn.
      rewrite (IH l0 (or_introl H2)). lia.
    - destruct l0 as [|r l0]; [discriminate H|].
      cbn in H. injection H as H1 H2.
      cbn [count_ok]. unfold is_ok at 1. rewrite H1. cbn.
      rewrite (IH l0 (or_intror H2)). lia. }
  apply Hok. destruct Hst as [H | [H _]]; [left | right]; exact H.
Qed.

Lemma run_n_statuses_witness :
  exists l s' (j : nat),
    run_n (init [0x20010007; 0x20020001] DEFAULT_BASE_PC) 10 = Ret (l, s') /\
    step_count s' = 0 + Z.of_nat j /\ count_ok l = Z.of_nat j.
Proof.
  destruct (run_n_statuses (init [0x20010007; 0x20020001] DEFAULT_BASE_PC) 10
              (reach_init _ _)) as (l & s' & j & Hrun & _ & Hc & Hk).
  exists l, s', j. split; [exact Hrun|]. split; [exact Hc | exact Hk].
Defined.

(** ** More about the word parser *)

Lemma hexdigit_char c :
  is_hexdigit c = true ->
  c_isspace c = false /\ is_underscore c = false /\
  (code c <? 128) = true /\ prefix_letter 16 c = false /\
  (digit_value c <? 16) = true /\ 0 <= digit_value c <= 15 /\
  (forall s, take_sign (String c s) = (1, String c s)).
Proof.
  intros H.
  destruct c as [[] [] [] [] [] [] [] []]; try discriminate H;
    (split; [reflexivity|]); (split; [reflexivity|]);
    (split; [reflexivity|]); (split; [reflexivity|]);
    (split; [reflexivity|]);
    (split; [vm_compute; split; discriminate|]); intros s; reflexivity.
Qed.

Lemma all_hexdigits_ascii s : all_hexdigits s = true -> is_ascii s = true.
Proof.
  induction s as [|c s IH]; cbn [all_hexdigits is_ascii]; [reflexivity|].
  intros H. apply andb_true_iff in H as [Hc Hs].
  destruct (hexdigit_char c Hc) as (_ & _ & -> & _). exact (IH Hs).
Qed.

Lemma scan_hex s :
  forall prev acc n,
    all_hexdigits s = true ->
    is_underscore prev = false ->
    scan_digits 16 s prev acc n =
      Some (hex_value s acc, (n + String.length s)%nat, "").
Proof.
  induction s as [|c s IH]; intros prev acc n Hs Hp.
  - cbn. rewrite Hp, Nat.add_0_r. reflexivity.
  - cbn [all_hexdigits] in Hs. apply andb_true_iff in Hs as [Hc Hs].
    destruct (hexdigit_char c Hc) as (_ & Hu & _ & _ & Hd & _).
    cbn [scan_digits hex_value String.length]. rewrite Hu, Hd.
    rewrite (IH c _ _ Hs Hu). f_equal. f_equal. f_equal. lia.
Qed.

Lemma hex_value_bound s :
  forall acc, all_hexdigits s = true -> 0 <= acc ->
    0 <= hex_value s acc < (acc + 1) * 16 ^ Z.of_nat (String.length s).
Proof.
  induction s as [|c s IH]; intros acc Hs Hacc.
  - cbn. lia.
  - cbn [all_hexdigits] in Hs. apply andb_true_iff in Hs as [Hc Hs].
    destruct (hexdigit_char c Hc) as (_ & _ & _ & _ & _ & Hd & _).
    cbn [hex_value String.length]. rewrite Nat2Z.inj_succ, Z.pow_succ_r by lia.
    specialize (IH (acc * 16 + digit_value c) Hs ltac:(lia)).
    assert (0 < 16 ^ Z.of_nat (String.length s))
      by (apply Z.pow_pos_nonneg; lia).
    nia.
Qed.

(** The conversion of a text of hexadecimal digits after the sign and the
    prefix have been dealt with. *)
Lemma int_hex_digits c h :
  all_hexdigits (String c h) = true ->
  match scan_digits 16 (String c h) "000" 0 0 with
  | None => Raise ValueError
  | Some (v, n, rest) =>
      if (n =? 0)%nat then Raise ValueError
      else match skip_spaces rest with
           | EmptyString => Ret (1 * v)
           | _ => Raise ValueError
           end
  end = Ret (hex_value (String c h) 0).
Proof.
  intros Hh. rewrite (scan_hex _ "000"%char 0 0 Hh eq_refl).
  cbn [String.length Nat.add Nat.eqb skip_spaces].
  match goal with |- context [1 * ?v] => destruct v end; reflexivity.
Qed.

Lemma int_hex_plain c h :
  all_hexdigits (String c h) = true ->
  int (String c h) 16 = Ret (hex_value (String c h) 0).
Proof.
  intros Hh. unfold int, transform_decimal_and_space.
  rewrite (all_hexdigits_ascii _ Hh).
  pose proof Hh as Hh'. cbn [all_hexdigits] in Hh'.
  apply andb_true_iff in Hh' as [Hc Hrest].
  destruct (hexdigit_char c Hc) as (Hsp & Hu & _ & _ & _ & _ & Hsign).
  cbn [skip_spaces]. rewrite Hsp, Hsign.
  assert (Hpre : skip_prefix 16 (String c h) = String c h).
  { unfold skip_prefix. destruct h as [|c2 h2].
    - destruct c as [[] [] [] [] [] [] [] []]; reflexivity.
    - cbn [all_hexdigits] in Hrest. apply andb_true_iff in Hrest as [Hc2 _].
      destruct (hexdigit_char c2 Hc2) as (_ & _ & _ & -> & _).
      destruct c as [[] [] [] [] [] [] [] []]; reflexivity. }
  rewrite Hpre.
  assert (Hm : forall (A : Type) (x y : A),
            match String c h with String "_" _ => x | _ => y end = y).
  { intros A x y. unfold is_underscore in Hu.
    destruct c as [[] [] [] [] [] [] [] []]; try reflexivity.
    discriminate Hu. }
  rewrite Hm. apply int_hex_digits. exact Hh.
Qed.

Lemma int_hex_prefixed (x : ascii) c h :
  x = "x"%char \/ x = "X"%char ->
  all_hexdigits (String c h) = true ->
  int (String "0" (String x (String c h))) 16
  = Ret (hex_value (String c h) 0).
Proof.
  intros Hx Hh. unfold int, transform_decimal_and_space.
  assert (Ha : is_ascii (String "0" (String x (String c h))) = true).
  { change (is_ascii (String "0" (String x (String c h))))
      with ((code "0" <? 128) && ((code x <? 128) && is_ascii (String c h))).
    rewrite (all_hexdigits_ascii _ Hh).
    destruct Hx as [-> | ->]; reflexivity. }
  rewrite Ha.
  pose proof Hh as Hh'. cbn [all_hexdigits] in Hh'.
  apply andb_true_iff in Hh' as [Hc Hrest].
  destruct (hexdigit_char c Hc) as (Hsp & Hu & _ & _ & _ & _ & Hsign).
  assert (Hm : forall (A : Type) (f : string -> A) (y : A),
            match String c h with String "_" s'' => f s'' | _ => y end = y).
  { intros A f y. unfold is_underscore in Hu.
    destruct c as [[] [] [] [] [] [] [] []]; try reflexivity.
    discriminate Hu. }
  assert (Hpre : skip_prefix 16 (String "0" (String x (String c h)))
                 = String c h).
  { unfold skip_prefix.
    destruct Hx as [-> | ->];
      [change (prefix_letter 16 "x") with true
      |change (prefix_letter 16 "X") with true];
      cbv iota; apply (Hm _ (fun t => t)). }
  change (skip_spaces (String "0" (String x (String c h))))
    with (String "0" (String x (String c h))).
  change (take_sign (String "0" (String x (String c h))))
    with (1, String "0" (String x (String c h))).
  cbv beta iota. rewrite Hpre.
  rewrite (Hm _ (fun _ => Raise ValueError)).
  apply int_hex_digits. exact Hh.
Qed.

(** X17. A line whose trimmed text is one to eight hexadecimal digits,
    with or without the prefix [0x] or [0X], parses to the value of the
    digits, which is a 32-bit word. *)
Theorem parse_word_hex_word (s p h : string) :
  strip s = p ++ h ->
  p = "" \/ p = "0x" \/ p = "0X" ->
  all_hexdigits h = true ->
  1 <= len h <= 8 ->
  parse_word s = Ret (Some (hex_value h 0)) /\ 0 <= hex_value h 0 < 2 ^ 32.
Proof.
  intros Ht Hp Hh Hlen.
  assert (Hb : 0 <= hex_value h 0 < 2 ^ 32).
  { pose proof (hex_value_bound h 0 Hh ltac:(lia)) as Hb.
    unfold len in Hlen.
    assert (16 ^ Z.of_nat (String.length h) <= 16 ^ 8)
      by (apply Z.pow_le_mono_r; lia).
    change (16 ^ 8) with (2 ^ 32) in *. lia. }
  split; [|exact Hb].
  rewrite parse_word_unfold, Ht.
  destruct h as [|c h]; [unfold len in Hlen; cbn [String.length] in Hlen; lia|].
  pose proof Hh as Hh'. cbn [all_hexdigits] in Hh'.
  apply andb_true_iff in Hh' as [Hc Hrest].
  destruct Hp as [-> | [-> | ->]].
  - change ("" ++ String c h) with (String c h). cbn [truthy].
    assert (Hwb : word_base (String c h) = 16).
    { unfold word_base.
      destruct (startswith (String c h) "0x" || startswith (String c h) "0X");
        [reflexivity|].
      replace (len (String c h) =? 32) with false
        by (symmetry; apply Z.eqb_neq; lia).
      rewrite andb_false_r. reflexivity. }
    rewrite Hwb, (int_hex_plain c h Hh). reflexivity.
  - change ("0x" ++ String c h) with (String "0" (String "x" (String c h))).
    cbn [truthy].
    change (word_base (String "0" (String "x" (String c h)))) with 16.
    rewrite (int_hex_prefixed "x" c h (or_introl eq_refl) Hh). reflexivity.
  - change ("0X" ++ String c h) with (String "0" (String "X" (String c h))).
    cbn [truthy].
    change (word_base (String "0" (String "X" (String c h)))) with 16.
    rewrite (int_hex_prefixed "X" c h (or_intror eq_refl) Hh). reflexivity.
Qed.

Lemma parse_word_hex_word_witness :
  parse_word "  0x2001ffff " = Ret (Some (hex_value "2001ffff" 0)) /\
  0 <= hex_value "2001ffff" 0 < 2 ^ 32.
Proof.
  apply (parse_word_hex_word "  0x2001ffff " "0x" "2001ffff").
  - reflexivity.
  - right. left. reflexivity.
  - reflexivity.
  - vm_compute. split; discriminate.
Defined.

Lemma rstrip_blank s : blank s = true -> rstrip s = "".
Proof.
  induction s as [|c s IH]; cbn [blank rstrip]; [reflexivity|].
  intros H. apply andb_true_iff in H as [Hc Hs].
  rewrite (IH Hs), Hc. reflexivity.
Qed.

Lemma rstrip_cons c s :
  isspace c = false -> rstrip (String c s) = String c (rstrip s).
Proof.
  intros Hc. cbn [rstrip]. destruct (rstrip s); [rewrite Hc|]; reflexivity.
Qed.

Lemma rstrip_append_blank s b :
  blank b = true -> rstrip (s ++ b) = rstrip s.
Proof.
  intros Hb. induction s as [|c s IH].
  - change ("" ++ b) with b. rewrite (rstrip_blank b Hb). reflexivity.
  - change (String c s ++ b) with (String c (s ++ b)).
    cbn [rstrip]. rewrite IH. reflexivity.
Qed.

Lemma lstrip_append_blank a s :
  blank a = true -> lstrip (a ++ s) = lstrip s.
Proof.
  induction a as [|c a IH]; intros Ha.
  - reflexivity.
  - cbn [blank] in Ha. apply andb_true_iff in Ha as [Hc Ha].
    change (String c a ++ s) with (String c (a ++ s)).
    cbn [lstrip]. rewrite Hc. apply IH, Ha.
Qed.

Lemma strip_append_blank s b :
  blank b = true -> rstrip (lstrip (s ++ b)) = rstrip (lstrip s).
Proof.
  intros Hb. induction s as [|c s IH].
  - change ("" ++ b) with b. rewrite (lstrip_blank b Hb). reflexivity.
  - change (String c s ++ b) with (String c (s ++ b)).
    cbn [lstrip]. destruct (isspace c); [exact IH|].
    change (String c (s ++ b)) with (String c s ++ b).
    apply rstrip_append_blank, Hb.
Qed.

Lemma strip_surrounded a s b :
  blank a = true -> blank b = true -> strip (a ++ s ++ b) = strip s.
Proof.
  intros Ha Hb. unfold strip. rewrite (lstrip_append_blank a _ Ha).
  apply strip_append_blank, Hb.
Qed.

(** X18. White space around a line does not change what it parses to:
    blanks, tabs, a trailing newline or carriage return are all dropped
    before the text is looked at. *)
Theorem parse_word_ignores_surrounding_space (a s b : string) :
  blank a = true -> blank b = true ->
  parse_word (a ++ s ++ b) = parse_word s.
Proof.
  intros Ha Hb. unfold parse_word.
  rewrite (strip_surrounded a s b Ha Hb). reflexivity.
Qed.

Lemma parse_word_ignores_surrounding_space_witness :
  parse_word (String "009" " " ++ "0x10" ++ String "013" (String "010" ""))
    = parse_word "0x10".
Proof.
  apply parse_word_ignores_surrounding_space; reflexivity.
Defined.

(** ** The load handler *)

Lemma parse_word_returns s : exists o, parse_word s = Ret o.
Proof.
  rewrite parse_word_unfold. destruct (truthy (strip s)); [|eauto].
  destruct (int (strip s) (word_base (strip s))); eauto.
Qed.

Lemma collect_words_spec lines :
  forall acc,
    collect_words lines acc = Ret (acc ++ omap line_word lines)%list.
Proof.
  induction lines as [|ln lines IH]; intros acc.
  - cbn. rewrite app_nil_r. reflexivity.
  - cbn [collect_words]. change (omap line_word (ln :: lines))
      with (match line_word ln with
            | Some v => v :: omap line_word lines
            | None => omap line_word lines
            end).
    unfold line_word.
    destruct (parse_word_returns ln) as [[v|] Hp]; rewrite Hp; cbn.
    + rewrite IH, <- app_assoc. reflexivity.
    + apply IH.
Qed.

Lemma omap_line_word_length lines :
  (length (omap line_word lines) <= length lines)%nat.
Proof.
  induction lines as [|ln lines IH]; [reflexivity|].
  change (omap line_word (ln :: lines))
    with (match line_word ln with
          | Some v => v :: omap line_word lines
          | None => omap line_word lines
          end).
  destruct (line_word ln); cbn; lia.
Qed.

Lemma decode_returns w : exists d, decode w = Ret d.
Proof. destruct (decode_shape w) as (d & Hd & _). eauto. Qed.

Lemma decode_listing_spec ws :
  forall p acc, exists es,
    decode_listing ws p acc = Ret (acc ++ es)%list /\
    length es = length ws /\
    forall (i : nat) e, es !! i = Some e ->
      le_pc e = p + 4 * Z.of_nat i /\
      ws !! i = Some (le_word e) /\
      decode (le_word e) = Ret (le_decoded e).
Proof.
  induction ws as [|w ws IH]; intros p acc.
  - exists []. cbn. rewrite app_nil_r.
    split; [reflexivity|]. split; [reflexivity|].
    intros i e H. discriminate H.
  - cbn [decode_listing]. destruct (decode_returns w) as [d Hd].
    rewrite Hd. cbn.
    destruct (IH (p + 4) (acc ++ [mkListingEntry p w d])%list)
      as (es & Hl & Hlen & Hes).
    exists (mkListingEntry p w d :: es).
    rewrite Hl, <- app_assoc. split; [reflexivity|].
    split; [cbn; rewrite Hlen; reflexivity|].
    intros [|i] e He.
    + injection He as <-. cbn. split; [lia|]. split; [reflexivity | exact Hd].
    + cbn in He. destruct (Hes i e He) as (Hpc & Hw & Hdec).
      split; [lia|]. split; [exact Hw | exact Hdec].
Qed.

(** X19. The load handler never raises.  The words it keeps are exactly
    the values of the lines on which [parse_word] returns an integer, in the
    order of the lines (lines that give no value are skipped); entry [i] of
    the listing has the address base + 4*i, word [i] and its decoding; and
    [fetch_instr_at_pc] on the machine it builds returns that word at the
    listed address. *)
Theorem listing_matches_machine (source_lines : list string) (b : Z) :
  exists words decoded,
    decode_instructions source_lines b = Ret (words, decoded, init words b) /\
    words = omap line_word source_lines /\
    (forall ln, In ln source_lines ->
       forall v, parse_word ln = Ret (Some v) <-> line_word ln = Some v) /\
    length decoded = length words /\
    (length words <= length source_lines)%nat /\
    forall (i : nat) e, decoded !! i = Some e ->
      le_pc e = b + 4 * Z.of_nat i /\
      words !! i = Some (le_word e) /\
      decode (le_word e) = Ret (le_decoded e) /\
      fetch_instr_at_pc (init words b) (le_pc e) = Ret (Some (le_word e)).
Proof.
  unfold decode_instructions.
  pose proof (collect_words_spec source_lines []) as Hc.
  destruct (decode_listing_spec (omap line_word source_lines) b [])
    as (es & Hd & Hlen & Hes).
  exists (omap line_word source_lines), es. rewrite Hc. cbn. rewrite Hd. cbn.
  split; [reflexivity|]. split; [reflexivity|].
  split.
  { intros ln _ v. unfold line_word.
    destruct (parse_word_returns ln) as [o Ho]. rewrite Ho.
    split; [intros [= ->] | intros ->]; reflexivity. }
  split; [exact Hlen|]. split; [apply omap_line_word_length|].
  intros i e He. destruct (Hes i e He) as (Hpc & Hw & Hdec).
  split; [exact Hpc|]. split; [exact Hw|]. split; [exact Hdec|].
  rewrite Hpc.
  pose proof (fetch_at_offset (init (omap line_word source_lines) b)
                (Z.of_nat i) 0 ltac:(lia)) as Hf.
  cbn [init base instrs] in Hf. rewrite Z.add_0_r in Hf. rewrite Hf.
  destruct (Z.ltb_spec (Z.of_nat i) 0) as [Hlt|_]; [lia|].
  rewrite Nat2Z.id, Hw. reflexivity.
Qed.

(** Four lines of which the second is empty and the third is not a
    number. *)
Lemma listing_matches_machine_witness :
  exists words decoded,
    decode_instructions ["0x2001FFFF"; ""; "zz"; " 08000010 "] 0x00400000
      = Ret (words, decoded, init words 0x00400000) /\
    words = omap line_word ["0x2001FFFF"; ""; "zz"; " 08000010 "] /\
    words = [0x2001FFFF; 0x08000010] /\
    map le_pc decoded = [0x00400000; 0x00400004].
Proof.
  destruct (listing_matches_machine
              ["0x2001FFFF"; ""; "zz"; " 08000010 "] 0x00400000)
    as (ws & es & Hd & Hw & _).
  exists ws, es. split; [exact Hd|]. split; [exact Hw|].
  vm_compute in Hd. injection Hd as <- <-. split; reflexivity.
Defined.

(** ** Arithmetic instructions *)

Lemma mask32_mod x : mask32 x = x mod 2 ^ 32.
Proof.
  unfold mask32. change 0xFFFFFFFF with (Z.ones 32). apply Z.land_ones. lia.
Qed.

(** X20. A register-format instruction of the table leaves in its
    destination register (unless that is register 0, which stays 0) the sum
    or difference of the two source registers modulo 2^32, their bitwise
    and/or, or for [slt] 1 or 0 according to whether the first is below the
    second as unsigned numbers; it advances the program counter by 4 and
    does not touch memory. *)
Theorem register_op_result (s : SimpleMIPS) (w : Z) (d : Decoded)
    (rs rt rd : Z) (mn : string) :
  reachable s ->
  halted s = false ->
  fetch_instr_at_pc s (pc s) = Ret (Some w) ->
  decode w = Ret d ->
  d_type d = "R" ->
  d_mnemonic d = mn ->
  In mn ["add"; "sub"; "and"; "or"; "slt"] ->
  d_rs d = Some rs -> d_rt d = Some rt -> d_rd d = Some rd ->
  exists r s' v,
    step s = Ret (r, s') /\ r_status r = Some "ok" /\
    pc s' = pc s + 4 /\ mem s' = mem s /\
    reg s' rd = (if rd =? 0 then 0 else v) /\
    0 <= reg s rs < 2 ^ 32 /\ 0 <= reg s rt < 2 ^ 32 /\
    (mn = "add" -> v = (reg s rs + reg s rt) mod 2 ^ 32) /\
    (mn = "sub" -> v = (reg s rs - reg s rt) mod 2 ^ 32) /\
    (mn = "and" -> v = Z.land (reg s rs) (reg s rt)) /\
    (mn = "or" -> v = Z.lor (reg s rs) (reg s rt)) /\
    (mn = "slt" -> v = if reg s rs <? reg s rt then 1 else 0).
Proof.
  intros Hr Hh Hf Hd Ht Hmn Hin Hrs Hrt Hrd.
  pose proof (reachable_inv s Hr) as Hi.
  assert (Hk : match mn with
               | String c' _ => negb (Ascii.eqb "u" c')
               | EmptyString => true
               end = true).
  { cbn in Hin.
    destruct Hin as [<- | [<- | [<- | [<- | [<- | []]]]]]; reflexivity. }
  destruct (decode_R_known w d mn Hd Ht Hmn Hk)
    as (Hop & Hl & Hrs' & Hrt' & Hrd').
  rewrite Hrs in Hrs'. rewrite Hrt in Hrt'. rewrite Hrd in Hrd'.
  injection Hrs' as ->. injection Hrt' as ->. injection Hrd' as ->.
  destruct (step_running s w (inv_wf s Hi) Hh Hf)
    as (d' & rg & m & p & ma & _ & He & Hs).
  pose proof (in32_reg s (f_rs w) (inv_regs s Hi)) as Ba.
  pose proof (in32_reg s (f_rt w) (inv_regs s Hi)) as Bb.
  apply R_lookup_funct in Hl.
  destruct Hl as [[E Hfn] | [[E Hfn] | [[E Hfn] | [[E Hfn] | [E Hfn]]]]];
    inversion He; subst; try exec_absurd;
    match type of Hs with
    | context [<[Z.to_nat (f_rd w) := ?x]> (regs s)] => eexists _, _, x
    end;
    (split; [exact Hs|]); cbn [ok_result ok_state r_status pc mem regs reg];
    (split; [reflexivity|]); (split; [reflexivity|]);
    (split; [reflexivity|]);
    (split; [apply reg_after_write; [apply (inv_len s Hi) | apply land_31]|]);
    (split; [exact Ba|]); (split; [exact Bb|]);
    repeat split; intros E'; rewrite E in E'; try discriminate E';
    rewrite ?(mask32_reg s _ Hi), ?mask32_mod; reflexivity.
Qed.

(** [addi $1,$0,-1; addi $2,$0,1; add $3,$1,$2], after the first two. *)
Lemma register_op_result_witness :
  exists s r s',
    reachable s /\ reg s 1 = 0xFFFFFFFF /\ reg s 2 = 1 /\
    step s = Ret (r, s') /\ reg s' 3 = 0.
Proof.
  pose (s0 := init [0x2001FFFF; 0x20020001; 0x00221820] DEFAULT_BASE_PC).
  destruct (step s0) as [[r1 s1]|e] eqn:E1; [|discriminate E1].
  destruct (step s1) as [[r2 s2]|e] eqn:E2;
    [|vm_compute in E1; injection E1 as <- <-; discriminate E2].
  assert (Hr : reachable s2).
  { eapply reach_step; [|exact E2]. eapply reach_step; [|exact E1].
    apply reach_init. }
  vm_compute in E1. injection E1 as <- <-.
  vm_compute in E2. injection E2 as <- <-.
  destruct (decode 0x00221820) as [d|e] eqn:Hd; [|discriminate Hd].
  match type of Hr with reachable ?st => set (s := st) in * end.
  destruct (register_op_result s 0x00221820 d 1 2 3 "add")
    as (r & s' & v & Hs & _ & _ & _ & Hreg & _ & _ & Hadd & _);
    try exact Hr; try exact Hd;
    try (vm_compute in Hd; injection Hd as <-; reflexivity);
    try reflexivity.
  { left. reflexivity. }
  exists s, r, s'. split; [exact Hr|]. split; [reflexivity|].
  split; [reflexivity|]. split; [exact Hs|].
  rewrite Hreg, (Hadd eq_refl). reflexivity.
Defined.

(** X21. [addi] leaves in its target register (unless that is register 0)
    the source register plus the signed immediate modulo 2^32, so from
    register 0 it loads imm mod 2^32: -1 becomes 0xFFFFFFFF. *)
Theorem addi_result (s : SimpleMIPS) (w : Z) (d : Decoded) (rs rt imm : Z) :
  reachable s ->
  halted s = false ->
  fetch_instr_at_pc s (pc s) = Ret (Some w) ->
  decode w = Ret d ->
  d_type d = "I" -> d_mnemonic d = "addi" ->
  d_rs d = Some rs -> d_rt d = Some rt -> d_imm d = Some imm ->
  exists r s',
    step s = Ret (r, s') /\ r_status r = Some "ok" /\
    pc s' = pc s + 4 /\ mem s' = mem s /\
    reg s' rt = (if rt =? 0 then 0 else (reg s rs + imm) mod 2 ^ 32) /\
    (rs = 0 -> reg s rs = 0).
Proof.
  intros Hr Hh Hf Hd Ht Hmn Hrs Hrt Himm.
  pose proof (reachable_inv s Hr) as Hi.
  destruct (decode_I_known w d _ Hd Ht Hmn eq_refl)
    as (Hl & Hrs' & Hrt' & Himm').
  rewrite Hrs in Hrs'. rewrite Hrt in Hrt'. rewrite Himm in Himm'.
  injection Hrs' as ->. injection Hrt' as ->. injection Himm' as ->.
  apply I_lookup_opcode in Hl.
  assert (Ho : f_opcode w = 0x08).
  { destruct Hl as [[E Ho] | [[E Ho] | [[E Ho] | [[E Ho] | [E Ho]]]]];
      try discriminate E; exact Ho. }
  destruct (step_running s w (inv_wf s Hi) Hh Hf)
    as (d' & rg & m & p & ma & _ & He & Hs).
  eexists _, _. split; [exact Hs|].
  inversion He; subst; try exec_absurd.
  cbn [ok_result ok_state r_status pc mem regs reg].
  split; [reflexivity|]. split; [reflexivity|]. split; [reflexivity|].
  split.
  - rewrite <- mask32_mod.
    apply reg_after_write; [apply (inv_len s Hi) | apply land_31].
  - intros E0. unfold reg. rewrite E0.
    apply nth_lookup_Some with (i := 0%nat). exact (inv_zero s Hi).
Qed.

(** [addi $1,$0,-1] on a fresh machine. *)
Lemma addi_result_witness :
  exists r s',
    step (init [0x2001FFFF] DEFAULT_BASE_PC) = Ret (r, s') /\
    reg s' 1 = 0xFFFFFFFF.
Proof.
  destruct (decode 0x2001FFFF) as [d|e] eqn:Hd; [|discriminate Hd].
  destruct (addi_result (init [0x2001FFFF] DEFAULT_BASE_PC) 0x2001FFFF d
              0 1 (-1))
    as (r & s' & Hs & _ & _ & _ & Hreg & _);
    try apply reach_init; try exact Hd;
    try (vm_compute in Hd; injection Hd as <-; reflexivity);
    try reflexivity.
  exists r, s'. split; [exact Hs|]. rewrite Hreg. reflexivity.
Defined.
